(** * ya-weather-api: the extraction core of [main.py]

    A shallow embedding of the normalizer helpers, the condition mapper, the
    two markup extractors, the cache and the two request handlers of
    [src/main.py], followed by the properties proved about them.

    Conventions of the embedding.
    - A Python [str] is the list of its code points ([list N]); [None] is the
      [None] of [option].  Literals are written as UTF-8 text and decoded by
      [u].
    - The tables of the Unicode database that the interpreter consults
      ([\d] of [re], [str.strip], [str.lower]) are not part of the
      repository: they are the fields of the class [Unicode].
    - A parsed document is a tree of [node]s; a place in it ([element]) carries the
      chain of its parents, nearest first, as every [bs4] element knows its
      parent.
    - A raised exception is the [Err] of [result]; the markup parser either
      returns a document or raises [ParserRejectedMarkup].
    - A Python [float] is an IEEE-754 binary64 in canonical form
      ([spec_float]); [==] on floats is [SFeqb], under which a NaN is not
      equal to itself and the two zeros are equal.
    - The cache is a dictionary in the order of insertion, looked up by the
      equality of Python; the readings of the clock and the outcome of the
      outbound request are arguments of the handlers. *)

From Stdlib Require Import String Ascii NArith ZArith List Bool Lia SpecFloat.
From stdpp Require Import base tactics option numbers list.

Set Default Proof Using "Type".
Set Warnings "-register-all".
Local Open Scope N_scope.

(* ===================================================================== *)
(** * Part I: the model                                                   *)
(* ===================================================================== *)

(** ** Python strings *)

(** A character is its code point. *)
Abbreviation char := N (only parsing).
Abbreviation str := (list N) (only parsing).

Fixpoint bytes_of_string (s : string) : list N :=
  match s with
  | EmptyString => []
  | String a s' => N_of_ascii a :: bytes_of_string s'
  end.

(** UTF-8 decoding of a literal: [need] continuation bytes are still to be
    read into [acc]. *)
Fixpoint utf8_decode (acc : N) (need : nat) (bs : list N) : str :=
  match bs with
  | [] => []
  | b :: bs' =>
      match need with
      | O =>
          if b <? 128 then b :: utf8_decode 0 O bs'
          else if b <? 224 then utf8_decode (b - 192) 1%nat bs'
          else if b <? 240 then utf8_decode (b - 224) 2%nat bs'
          else utf8_decode (b - 240) 3%nat bs'
      | S O => (acc * 64 + (b - 128)) :: utf8_decode 0 O bs'
      | S n => utf8_decode (acc * 64 + (b - 128)) n bs'
      end
  end.

Definition u (s : string) : str := utf8_decode 0 O (bytes_of_string s).

(** [a == b] on strings. *)
Fixpoint str_eqb (a b : str) : bool :=
  match a, b with
  | [], [] => true
  | x :: a', y :: b' => (x =? y) && str_eqb a' b'
  | _, _ => false
  end.

(** [text.startswith(needle)]. *)
Fixpoint startswith (needle text : str) : bool :=
  match needle, text with
  | [], _ => true
  | _ :: _, [] => false
  | x :: needle', y :: text' => (x =? y) && startswith needle' text'
  end.

(** [needle in text]: the substring test. *)
Fixpoint contains (needle text : str) : bool :=
  startswith needle text
  || match text with
     | [] => false
     | _ :: text' => contains needle text'
     end.

(** [sep.join(parts)]. *)
Fixpoint join (sep : str) (parts : list str) : str :=
  match parts with
  | [] => []
  | [p] => p
  | p :: rest => p ++ sep ++ join sep rest
  end.

(** Truth value of an optional string: [None] and [""] are false. *)
Definition truthy (t : option str) : bool :=
  match t with
  | Some (_ :: _) => true
  | _ => false
  end.

(** [a or b] on optional strings. *)
Definition py_or (a b : option str) : option str :=
  if truthy a then a else b.

(** [seq[i]] on a Python list, negative indices counting from the end;
    [None] stands for [IndexError]. *)
Definition py_index {A} (l : list A) (i : Z) : option A :=
  let n := Z.of_nat (length l) in
  if ((0 <=? i) && (i <? n))%Z then l !! Z.to_nat i
  else if ((- n <=? i) && (i <? 0))%Z then l !! Z.to_nat (n + i)
  else None.

(** ** The Unicode tables of the interpreter *)

(** Lower-casing of Basic Latin and of the Cyrillic block U+0400..U+045F. *)
Definition lower_basic (c : char) : char :=
  if (65 <=? c) && (c <=? 90) then c + 32
  else if (1024 <=? c) && (c <=? 1039) then c + 80
  else if (1040 <=? c) && (c <=? 1071) then c + 32
  else c.

Definition is_basic (c : char) : bool :=
  (c <? 128) || ((1024 <=? c) && (c <=? 1119)).

Definition ascii_digit (c : char) : bool := (48 <=? c) && (c <=? 57).

(** What the embedding needs of the Unicode database: the decimal digits
    (what [\d] matches in a [str] pattern, and [str.isdecimal]), the white
    space that [str.strip] removes and [str.lower].  The two laws record what every version of the database
    agrees on: below U+0660 the decimal digits are the ASCII ones, and on
    Basic Latin and Cyrillic text [lower] maps letter by letter. *)
Class Unicode := {
  isdecimal : char -> bool;
  isspace : char -> bool;
  lower : str -> str;
  isdecimal_below_arabic : forall c, c < 1632 -> isdecimal c = ascii_digit c;
  lower_on_basic :
    forall s, forallb is_basic s = true -> lower s = map lower_basic s
}.

Inductive result (E A : Type) : Type :=
| Ok (a : A)
| Err (e : E).
Arguments Ok {E A} a.
Arguments Err {E A} e.

(** The exceptions that the extractors let out: their own [ValueError], and
    the [ParserRejectedMarkup] of the markup parser, which is no
    [ValueError]. *)
Inductive exn :=
| ValueError (msg : str)
| ParserRejectedMarkup (msg : str).

Section Normalizers.
Context `{Unicode}.

Fixpoint lstrip (s : str) : str :=
  match s with
  | c :: s' => if isspace c then lstrip s' else s
  | [] => []
  end.

(** [s.strip()]: white space removed at both ends. *)
Definition strip (s : str) : str := rev (lstrip (rev (lstrip s))).

(** *** Regular expressions *)

(** [re.search]: the match at the leftmost position where the pattern
    matches; [at_ rest] is the match of the pattern at the start of [rest],
    as the backtracking matcher finds it. *)
Fixpoint re_search (at_ : str -> option str) (text : str) : option str :=
  match at_ text with
  | Some m => Some m
  | None =>
      match text with
      | [] => None
      | _ :: rest => re_search at_ rest
      end
  end.

(** [\d*], greedy. *)
Fixpoint digit_run (s : str) : str :=
  match s with
  | c :: s' => if isdecimal c then c :: digit_run s' else []
  | [] => []
  end.

(** [\d+] with nothing after it: the longest run of digits, one at least. *)
Definition re_digits (s : str) : option str :=
  match digit_run s with
  | [] => None
  | m => Some m
  end.

Definition degree : char := 176.

Definition is_sign (c : char) : bool := (c =? 43) || (c =? 45).

(** [\d+°]: the greedy [\d+] takes digits as long as it can and gives them
    back one by one until a degree sign follows. *)
Fixpoint re_digits_degree (s : str) : option str :=
  match s with
  | c :: s' =>
      if isdecimal c then
        match re_digits_degree s' with
        | Some m => Some (c :: m)
        | None =>
            match s' with
            | d :: _ => if d =? degree then Some [c; d] else None
            | [] => None
            end
        end
      else None
  | [] => None
  end.

(** [[+-]?\d+°]: the sign is taken when there is one, and given back when
    the rest does not match after it. *)
Definition re_temperature (s : str) : option str :=
  match s with
  | c :: s' =>
      if is_sign c then
        match re_digits_degree s' with
        | Some m => Some (c :: m)
        | None => re_digits_degree s
        end
      else re_digits_degree s
  | [] => None
  end.

(** *** The four helpers *)

Definition _extract_temperature (text : option str) : option str :=
  if negb (truthy text) then None
  else match text with
       | Some text => re_search re_temperature text
       | None => None
       end.

Definition _extract_wind (text : option str) : option str :=
  if negb (truthy text) then None
  else match text with
       | Some text => Some (strip text)
       | None => None
       end.

Definition _extract_pressure (text : option str) : option str :=
  if negb (truthy text) then None
  else match text with
       | Some text => re_search re_digits text
       | None => None
       end.

Definition _extract_humidity (text : option str) : option str :=
  if negb (truthy text) then None
  else match text with
       | Some text => re_search re_digits text
       | None => None
       end.

(** *** Condition text to code *)

Definition _map_condition_to_code (condition_text : option str) : option str :=
  if negb (truthy condition_text) then None
  else match condition_text with
  | None => None
  | Some condition_text =>
    let text := lower condition_text in
    if contains (u "ясно") text then Some (u "clear")
    else if contains (u "малооблачно") text || contains (u "переменная облачность") text
      then Some (u "partly-cloudy")
    else if contains (u "облачно с прояснениями") text then Some (u "cloudy-and-clear")
    else if contains (u "облачно") text then Some (u "cloudy")
    else if contains (u "пасмурно") text then Some (u "overcast")
    else if contains (u "небольшой дождь") text || contains (u "слабый дождь") text
      then Some (u "light-rain")
    else if contains (u "дождь") text then Some (u "rain")
    else if contains (u "ливень") text || contains (u "сильный дождь") text
      then Some (u "heavy-rain")
    else if contains (u "гроза") text then Some (u "thunderstorm")
    else if contains (u "небольшой снег") text || contains (u "слабый снег") text
      then Some (u "light-snow")
    else if contains (u "снег") text then Some (u "snow")
    else if contains (u "метель") text || contains (u "сильный снег") text
      then Some (u "heavy-snow")
    else if contains (u "туман") text then Some (u "fog")
    else if contains (u "мгла") text || contains (u "дымка") text then Some (u "haze")
    else if contains (u "морось") text then Some (u "drizzle")
    else if contains (u "град") text then Some (u "hail")
    else Some (u "unknown")
  end.

End Normalizers.

(** ** The parsed document *)

(** A node of the tree that [BeautifulSoup(html, "html.parser")] builds.  A
    [Tag] has its name, the value of its [class] attribute (a list of class
    names, [None] when the attribute is missing), its other attributes and
    its contents.  [NavigableString] is a piece of text; [OtherString] is a
    string that [get_text] leaves out (a comment, a declaration, the content
    of a script).  The document itself is a [Tag] named [[document]]. *)
Inductive node : Type :=
| Tag (name : str) (class_ : option (list str)) (attrs : list (str * str))
      (contents : list node)
| NavigableString (s : str)
| OtherString (s : str).

(** An element of the document: the node and its parents, nearest first. *)
Record element := Element { parents : list node; here : node }.

Definition is_tag (name : str) (n : node) : bool :=
  match n with
  | Tag name' _ _ _ => str_eqb name' name
  | _ => false
  end.

(** [el.get("class")]. *)
Definition get_class (n : node) : option (list str) :=
  match n with
  | Tag _ class_ _ _ => class_
  | _ => None
  end.

(** [el.get("class", [])]. *)
Definition get_class_or_empty (n : node) : list str :=
  match get_class n with
  | Some classes => classes
  | None => []
  end.

Fixpoint assoc (key : str) (attrs : list (str * str)) : option str :=
  match attrs with
  | [] => None
  | (k, v) :: attrs' => if str_eqb k key then Some v else assoc key attrs'
  end.

(** [el.get(key)] for an attribute other than [class]. *)
Definition get_attr (key : str) (n : node) : option str :=
  match n with
  | Tag _ _ attrs _ => assoc key attrs
  | _ => None
  end.

(** [el.descendants]: every node below [n], in document order. *)
Fixpoint descendants_of (ps : list node) (n : node) {struct n} : list element :=
  match n with
  | Tag _ _ _ contents =>
      flat_map (fun c => Element (n :: ps) c :: descendants_of (n :: ps) c) contents
  | _ => []
  end.

Definition descendants (e : element) : list element :=
  descendants_of (parents e) (here e).

(** [el.find_parent(name)]: the nearest parent that is a tag of that name. *)
Fixpoint find_parent_in (name : str) (ps : list node) : option element :=
  match ps with
  | [] => None
  | p :: ps' => if is_tag name p then Some (Element ps' p) else find_parent_in name ps'
  end.

Definition find_parent (name : str) (e : element) : option element :=
  find_parent_in name (parents e).

(** A compound selector [tag] or [tag.class]. *)
Record compound := Compound { sel_tag : str; sel_class : option str }.

Definition matches_compound (c : compound) (n : node) : bool :=
  is_tag (sel_tag c) n
  && match sel_class c with
     | None => true
     | Some cls => existsb (str_eqb cls) (get_class_or_empty n)
     end.

(** The compounds to the left of a descendant combinator, innermost first,
    are looked for up the chain of parents. *)
Fixpoint ancestors_match (outer : list compound) (ps : list node) {struct ps} : bool :=
  match outer, ps with
  | [], _ => true
  | _ :: _, [] => false
  | c :: outer', p :: ps' =>
      if matches_compound c p then ancestors_match outer' ps'
      else ancestors_match outer ps'
  end.

(** A selector [c1 c2 ... subject]: compounds joined by the descendant
    combinator. *)
Record selector := Selector { sel_outer : list compound; sel_subject : compound }.

Definition matches_selector (s : selector) (e : element) : bool :=
  matches_compound (sel_subject s) (here e)
  && ancestors_match (rev (sel_outer s)) (parents e).

(** [el.select(selector)]: the matching elements below [el], in document
    order. *)
Definition select (s : selector) (e : element) : list element :=
  List.filter (matches_selector s) (descendants e).

(** [el.select_one(selector)]. *)
Definition select_one (s : selector) (e : element) : option element :=
  head (select s e).

(** How [find] applies a function given as [class_]: to each class name of
    the attribute, then to the whole value; a missing attribute is [None],
    which the functions of [main.py] reject ([isinstance(c, str)]). *)
Definition class_satisfies (p : str -> bool) (n : node) : bool :=
  match get_class n with
  | None => false
  | Some classes => existsb p classes || p (join (u " ") classes)
  end.

(** [el.find(name, class_=p)]: the first tag below [el] of that name whose
    class satisfies [p]. *)
Definition find (name : str) (p : str -> bool) (e : element) : option element :=
  head (List.filter (fun d => is_tag name (here d) && class_satisfies p (here d))
                    (descendants e)).

Definition tag_class (tag cls : string) : selector :=
  Selector [] (Compound (u tag) (Some (u cls))).

Definition tag_class_in (otag ocls : string) (tag : string) (cls : option string) : selector :=
  Selector [Compound (u otag) (Some (u ocls))] (Compound (u tag) (u <$> cls)).

Section Extractors.
Context `{Unicode}.

(** The strings below [n] that [get_text] collects; with [strip_] each is
    stripped and dropped when nothing is left. *)
Fixpoint all_strings (strip_ : bool) (n : node) : list str :=
  match n with
  | Tag _ _ _ contents => flat_map (all_strings strip_) contents
  | NavigableString s =>
      if strip_ then
        match strip s with
        | [] => []
        | s' => [s']
        end
      else [s]
  | OtherString _ => []
  end.

(** [el.get_text(sep, strip=strip_)]. *)
Definition get_text (sep : str) (strip_ : bool) (e : element) : str :=
  join sep (all_strings strip_ (here e)).

(** [el.text]. *)
Definition text (e : element) : str := get_text [] false e.

(** The current-conditions record. *)
Record weather := Weather {
  w_temperature : option str;
  w_condition : option str;
  w_condition_text : option str;
  w_feels_like : option str;
  w_yesterday_full : option str;
  w_yesterday_short : option str;
  w_wind : option str;
  w_pressure : option str;
  w_humidity : option str;
  w_water_temperature : option str
}.

(** [detail_at] of [parse_weather]: the [IndexError] of an index out of
    range is caught and gives [None]. *)
Definition detail_at (details_items : list element) (index : Z) : option str :=
  match py_index details_items index with
  | Some item => Some (get_text [] true item)
  | None => None
  end.

(** The three ways in which [parse_weather] looks for the fact block. *)
Definition find_wrap (soup : element) : option element :=
  let wrap := select_one (tag_class "div" "AppFact_wrap__N4SYB") soup in
  let wrap :=
    match wrap with
    | Some w => Some w
    | None => find (u "div") (contains (u "AppFact_wrap__")) soup
    end in
  match wrap with
  | Some w => Some w
  | None =>
      let value_span := find (u "span") (contains (u "AppFactTemperature_value")) soup in
      match value_span with
      | Some v => find_parent (u "div") v
      | None => None
      end
  end.

Definition text_or_empty (e : option element) : str :=
  match e with
  | Some e => text e
  | None => []
  end.

Definition stripped_text (e : option element) : option str :=
  match e with
  | Some e => Some (strip (text e))
  | None => None
  end.

Definition nonempty (s : str) : bool :=
  match s with
  | [] => false
  | _ => true
  end.

Definition parse_weather_soup (doc : node) : result exn weather :=
  let soup := Element [] doc in
  match find_wrap soup with
  | None => Err (ValueError (u "Weather block not found in the page"))
  | Some wrap =>
      let temperature_block := select_one (tag_class "p" "AppFactTemperature_content__Lx4p9") wrap in
      let sign := temperature_block ≫= select_one (tag_class "span" "AppFactTemperature_sign__1MeN4") in
      let value := temperature_block ≫= select_one (tag_class "span" "AppFactTemperature_value__2qhsG") in
      let degree := temperature_block ≫= select_one (tag_class "span" "AppFactTemperature_degree__LL_2v") in
      let temperature :=
        py_or (Some (strip (join [] (List.filter nonempty
                 [text_or_empty sign; text_or_empty value; text_or_empty degree]))))
              None in
      let condition_warning := select_one (tag_class "p" "AppFact_warning__8kUUn") wrap in
      let feels_like := select_one (tag_class "span" "AppFact_feels__IJoel") wrap in
      let yesterday_full := select_one (tag_class "span" "AppFact_yesterday__zTK7e") wrap in
      let yesterday_short := select_one (tag_class "span" "AppFact_yesterdayShort__DB943") wrap in
      let details_items :=
        select (tag_class_in "ul" "AppFact_details__OYahy"
                             "li" (Some "AppFact_details__item__QFIXI"%string)) wrap in
      let condition_text := stripped_text condition_warning in
      Ok {| w_temperature := temperature;
            w_condition := _map_condition_to_code condition_text;
            w_condition_text := condition_text;
            w_feels_like := _extract_temperature (stripped_text feels_like);
            w_yesterday_full := _extract_temperature (stripped_text yesterday_full);
            w_yesterday_short := _extract_temperature (stripped_text yesterday_short);
            w_wind := _extract_wind (detail_at details_items 0);
            w_pressure := _extract_pressure (detail_at details_items 1);
            w_humidity := _extract_humidity (detail_at details_items 2);
            w_water_temperature := detail_at details_items 3 |}
  end.

(** One day of the month view. *)
Record day := Day {
  d_title : option str;
  d_label : option str;
  d_day_temp : option str;
  d_night_temp : option str;
  d_feels_like : option str;
  d_pressure : option str;
  d_humidity : option str;
  d_wind : option str;
  d_water_temperature : option str
}.

(** [param_at] of [parse_month]. *)
Definition param_at (params : list element) (index : Z) : option str :=
  match py_index params index with
  | Some item => Some (get_text (u " ") true item)
  | None => None
  end.

(** The list item around a day block, and its class names. *)
Definition day_li (day_block : element) : option element :=
  find_parent (u "li") day_block.

Definition li_classes (day_block : element) : list str :=
  match day_li day_block with
  | Some li => get_class_or_empty (here li)
  | None => []
  end.

(** [any("climateStart" in cls for cls in classes)]. *)
Definition is_climate_start (day_block : element) : bool :=
  existsb (contains (u "climateStart")) (li_classes day_block).

(** The parameter items of a day block. *)
Definition day_details (day_block : element) : option element :=
  let scope := match day_li day_block with Some li => li | None => day_block end in
  select_one (tag_class "div" "AppMonthCalendarDayDetailedInfo_details__Z6kgi") scope.

Definition day_params (day_block : element) : list element :=
  match day_details day_block with
  | Some details =>
      select (tag_class_in "ul" "AppMonthCalendarDayDetailedInfo_params__7Z8Yt" "li" None)
             details
  | None => []
  end.

(** The entry that the body of the loop appends for a day block. *)
Definition day_entry (day_block : element) : day :=
  let link := select_one (tag_class "a" "AppMonthCalendarDay_day__date__QDruE") day_block in
  let title := link ≫= (fun l => get_attr (u "aria-label") (here l)) in
  let date_text := (fun l => get_text (u " ") true l) <$> link in
  let temp_spans :=
    select (tag_class_in "p" "AppMonthCalendarDay_temperature__4x_Yx"
                         "span" (Some "AppMonthCalendarDay_temperature__number__VSntF"%string))
           day_block in
  let day_temp :=
    match temp_spans with
    | first :: _ => Some (strip (text first))
    | [] => None
    end in
  let night_temp :=
    (fun span => strip (text span)) <$>
    head (List.filter
            (fun span => existsb (str_eqb (u "AppMonthCalendarDay_temperature__number_night__ggkzj"))
                                 (get_class_or_empty (here span)))
            temp_spans) in
  let details := day_details day_block in
  let feels :=
    details ≫= select_one (tag_class "p" "AppMonthCalendarDayDetailedInfo_details__feelsLike__nXzvQ") in
  let params := day_params day_block in
  {| d_title := py_or title date_text;
     d_label := date_text;
     d_day_temp := day_temp;
     d_night_temp := night_temp;
     d_feels_like := _extract_temperature (stripped_text feels);
     d_pressure := _extract_pressure (param_at params 0);
     d_humidity := _extract_humidity (param_at params 1);
     d_wind := _extract_wind (param_at params 2);
     d_water_temperature := param_at params 3 |}.

(** The body of the loop over the day blocks: a placeholder is passed over
    ([continue]), any other block appends its entry to [days]. *)
Definition month_step (days : list day) (day_block : element) : list day :=
  if is_climate_start day_block then days
  else days ++ [day_entry day_block].

Definition parse_month_soup (doc : node) : result exn (list day) :=
  let soup := Element [] doc in
  match select_one (tag_class "article" "AppMonth_month__CunyE") soup with
  | None => Err (ValueError (u "Month block not found in the page"))
  | Some article =>
      let days :=
        fold_left month_step
                  (select (tag_class "div" "AppMonthCalendarDay_day__GjOhu") article) [] in
      match days with
      | [] => Err (ValueError (u "No day entries found in month view"))
      | _ => Ok days
      end
  end.

End Extractors.

(** ** The cache and the request handlers *)

(** What a cache entry holds: the record of [parse_weather] or the list of
    [parse_month]. *)
Inductive payload :=
| Current (w : weather)
| Month (days : list day).

(** Truth value of a payload: a dictionary of ten keys is true, a list is
    true when it has an element. *)
Definition payload_truthy (d : payload) : bool :=
  match d with
  | Current _ => true
  | Month [] => false
  | Month (_ :: _) => true
  end.

Definition truthy_payload (cached : option payload) : bool :=
  match cached with
  | Some d => payload_truthy d
  | None => false
  end.

(** An instant or a duration, in microseconds. *)
Abbreviation time := Z (only parsing).

(** [{"ts": ..., "data": ...}]. *)
Record entry := Entry { ts : time; data : payload }.

(** [timedelta(minutes=15)]. *)
Definition CACHE_TTL : time := (15 * 60 * 1000000)%Z.

(** The outcome of [requests.get] followed by [raise_for_status]: the text
    of the response, or a [RequestException] with its message. *)
Inductive fetched :=
| Response (text : str)
| RequestException (msg : str).

Record HTTPException := Http { status_code : Z; detail : str }.

(** What leaves a handler that returns no envelope: the [HTTPException] it
    raises, or an exception that it does not catch. *)
Inductive raised :=
| HTTP (e : HTTPException)
| Uncaught (e : exn).

(** *** Floats and keys *)

Abbreviation float := spec_float (only parsing).

(** [x == y] on floats. *)
Definition float_eqb (x y : float) : bool := SFeqb x y.

(** [math.isnan(x)]. *)
Definition isnan (x : float) : bool :=
  match x with
  | S754_nan => true
  | _ => false
  end.

(** [k1 == k2] on the keys [(scope, lat, lon)] of the cache.  The
    coordinates of two calls are different objects, so that they are compared
    by [==] alone: a key with a NaN in it is equal to no key. *)
Definition key_eqb (k1 k2 : str * float * float) : bool :=
  str_eqb k1.1.1 k2.1.1 && float_eqb k1.1.2 k2.1.2 && float_eqb k1.2 k2.2.

(** *** The dictionary *)

(** A [dict] from keys to entries: its items in the order of insertion, no
    two of them with keys that are equal. *)
Record dict := Dict { items : list ((str * float * float) * entry) }.

(** [d.get(k)]: the value of the item whose key is equal to [k]. *)
Fixpoint items_get (l : list ((str * float * float) * entry)) (k : str * float * float) :
    option entry :=
  match l with
  | [] => None
  | (k', e) :: l' => if key_eqb k' k then Some e else items_get l' k
  end.

(** [d[k] = e]: the item whose key is equal to [k] takes the value [e] and
    keeps its key; without such an item a new one is added at the end. *)
Fixpoint items_set (l : list ((str * float * float) * entry)) (k : str * float * float)
    (e : entry) : list ((str * float * float) * entry) :=
  match l with
  | [] => [(k, e)]
  | (k', e') :: l' =>
      if key_eqb k' k then (k', e) :: l' else (k', e') :: items_set l' k e
  end.

#[global] Instance dict_lookup : Lookup (str * float * float) entry dict :=
  fun k d => items_get (items d) k.

#[global] Instance dict_insert : Insert (str * float * float) entry dict :=
  fun k e d => Dict (items_set (items d) k e).

#[global] Instance dict_empty : Empty dict := Dict [].

Section Service.
Context `{Unicode}.
(** How a coordinate is written into the address of the source page. *)
Context (float_str : float -> str).
(** The markup parser: the document, or the message of the
    [ParserRejectedMarkup] that it raises. *)
Context (BeautifulSoup : str -> result str node).

(** The envelope of a successful answer. *)
Record envelope := Envelope {
  e_lat : float;
  e_lon : float;
  e_source : str;
  e_data : payload;
  e_cached : bool
}.

(** [now] is the reading of the clock, taken when the key has an entry. *)
Definition _get_cached (scope : str) (lat lon : float) (now : time)
    (_cache : dict) : option payload :=
  let key := (scope, lat, lon) in
  match _cache !! key with
  | None => None
  | Some entry =>
      if (now - ts entry >? CACHE_TTL)%Z then None
      else Some (data entry)
  end.

Definition _set_cached (scope : str) (lat lon : float) (data : payload) (now : time)
    (_cache : dict) : dict :=
  let key := (scope, lat, lon) in
  <[key := {| ts := now; data := data |}]> _cache.

Definition parse_weather (html : str) : result exn weather :=
  match BeautifulSoup html with
  | Ok soup => parse_weather_soup soup
  | Err msg => Err (ParserRejectedMarkup msg)
  end.

Definition parse_month (html : str) : result exn (list day) :=
  match BeautifulSoup html with
  | Ok soup => parse_month_soup soup
  | Err msg => Err (ParserRejectedMarkup msg)
  end.

(** The two handlers.  [now1] is the reading of the clock in the first
    look-up, [now2] the reading in the look-up after a failure or in the
    store; [upstream] is the outcome of the outbound request, which is made
    only after the first look-up has missed.  [if cached:] takes its branch
    when the look-up has returned a payload that is true.  Only a
    [ValueError] of the extractor is caught; any other exception leaves the
    handler.  The result is the answer, or what is raised, and the cache
    afterwards. *)
Definition get_weather_total (lat lon : float) (now1 now2 : time) (upstream : fetched)
    (_cache : dict) : result raised envelope * dict :=
  let url := u "https://yandex.ru/pogoda/ru?lat=" ++ float_str lat
             ++ u "&lon=" ++ float_str lon in
  let scope := u "current" in
  let cached := _get_cached scope lat lon now1 _cache in
  match (if truthy_payload cached then cached else None) with
  | Some cached => (Ok (Envelope lat lon url cached true), _cache)
  | None =>
      match upstream with
      | RequestException exc =>
          let cached := _get_cached scope lat lon now2 _cache in
          match (if truthy_payload cached then cached else None) with
          | Some cached => (Ok (Envelope lat lon url cached true), _cache)
          | None =>
              (Err (HTTP (Http 502 (u "Failed to fetch source page: " ++ exc))), _cache)
          end
      | Response text =>
          match parse_weather text with
          | Err (ValueError exc) =>
              let cached := _get_cached scope lat lon now2 _cache in
              match (if truthy_payload cached then cached else None) with
              | Some cached => (Ok (Envelope lat lon url cached true), _cache)
              | None => (Err (HTTP (Http 500 exc)), _cache)
              end
          | Err other => (Err (Uncaught other), _cache)
          | Ok data =>
              (Ok (Envelope lat lon url (Current data) false),
               _set_cached scope lat lon (Current data) now2 _cache)
          end
      end
  end.

Definition get_weather_month (lat lon : float) (now1 now2 : time) (upstream : fetched)
    (_cache : dict) : result raised envelope * dict :=
  let scope := u "month" in
  let url := u "https://yandex.ru/pogoda/ru/month?lat=" ++ float_str lat
             ++ u "&lon=" ++ float_str lon in
  let cached := _get_cached scope lat lon now1 _cache in
  match (if truthy_payload cached then cached else None) with
  | Some cached => (Ok (Envelope lat lon url cached true), _cache)
  | None =>
      match upstream with
      | RequestException exc =>
          let cached := _get_cached scope lat lon now2 _cache in
          match (if truthy_payload cached then cached else None) with
          | Some cached => (Ok (Envelope lat lon url cached true), _cache)
          | None =>
              (Err (HTTP (Http 502 (u "Failed to fetch source page: " ++ exc))), _cache)
          end
      | Response text =>
          match parse_month text with
          | Err (ValueError exc) =>
              let cached := _get_cached scope lat lon now2 _cache in
              match (if truthy_payload cached then cached else None) with
              | Some cached => (Ok (Envelope lat lon url cached true), _cache)
              | None => (Err (HTTP (Http 500 exc)), _cache)
              end
          | Err other => (Err (Uncaught other), _cache)
          | Ok data =>
              (Ok (Envelope lat lon url (Month data) false),
               _set_cached scope lat lon (Month data) now2 _cache)
          end
      end
  end.

End Service.

(** ** An instance of the tables

    The tables restricted to Basic Latin and Cyrillic, with the white space
    of [str.strip]; the examples of Part II are evaluated on it. *)

Definition basic_isspace (c : char) : bool :=
  ((9 <=? c) && (c <=? 13)) || ((28 <=? c) && (c <=? 32))
  || (c =? 133) || (c =? 160) || (c =? 5760)
  || ((8192 <=? c) && (c <=? 8202))
  || (c =? 8232) || (c =? 8233) || (c =? 8239) || (c =? 8287) || (c =? 12288).

Definition basic_unicode : Unicode :=
  {| isdecimal := ascii_digit;
     isspace := basic_isspace;
     lower := map lower_basic;
     isdecimal_below_arabic := fun _ _ => eq_refl;
     lower_on_basic := fun _ _ => eq_refl |}.

(** ** The vocabulary of the statements *)

(** [m] occurs in [text]. *)
Definition occurs (m text : str) : Prop :=
  exists pre post, text = pre ++ m ++ post.

(** [m] is the first substring of [text] with the property [P]: no substring
    with [P] starts before it, and none that starts where it does is
    longer. *)
Definition first_longest (P : str -> Prop) (text m : str) : Prop :=
  exists pre post,
    text = pre ++ m ++ post /\ P m /\
    forall pre' m' post',
      text = pre' ++ m' ++ post' -> P m' ->
      (length pre < length pre')%nat
      \/ (length pre = length pre' /\ length m' <= length m)%nat.

(** Text below U+0660, where every version of the tables has the ASCII
    digits only. *)
Definition below_arabic (s : str) : bool := forallb (fun c => c <? 1632) s.

Section Vocabulary.
Context `{Unicode}.

Definition all_digits (m : str) : Prop := Forall (fun c => isdecimal c = true) m.

Definition no_digit (m : str) : Prop := Forall (fun c => isdecimal c = false) m.

(** An optional sign, one or more digits, a degree sign. *)
Definition temperature_shaped (m : str) : Prop :=
  exists sign digits,
    m = sign ++ digits ++ [degree]
    /\ (sign = [] \/ sign = [43] \/ sign = [45])
    /\ digits <> [] /\ all_digits digits.

(** [m] is the first run of digits of [text]: digits only, no digit before
    it, no digit right after it. *)
Definition first_digit_run (text m : str) : Prop :=
  exists pre post,
    text = pre ++ m ++ post /\ m <> [] /\ all_digits m /\ no_digit pre
    /\ match post with
       | c :: _ => isdecimal c = false
       | [] => True
       end.

(** The four helpers and what each of them looks for: the wind helper
    matches no pattern, so that every text has what it looks for. *)
Inductive helper := Temperature | Wind | Pressure | Humidity.

Definition run_helper (h : helper) : option str -> option str :=
  match h with
  | Temperature => _extract_temperature
  | Wind => _extract_wind
  | Pressure => _extract_pressure
  | Humidity => _extract_humidity
  end.

Definition has_match (h : helper) (text : str) : Prop :=
  match h with
  | Temperature => exists m, occurs m text /\ temperature_shaped m
  | Wind => True
  | Pressure | Humidity => Exists (fun c => isdecimal c = true) text
  end.

End Vocabulary.

(** The rules of the condition mapper as the specification lists them:
    the phrases of each rule and its code, in the order of priority. *)
Definition condition_rules : list (list str * str) :=
  [ ([u "ясно"], u "clear");
    ([u "малооблачно"; u "переменная облачность"], u "partly-cloudy");
    ([u "облачно с прояснениями"], u "cloudy-and-clear");
    ([u "облачно"], u "cloudy");
    ([u "пасмурно"], u "overcast");
    ([u "небольшой дождь"; u "слабый дождь"], u "light-rain");
    ([u "дождь"], u "rain");
    ([u "ливень"; u "сильный дождь"], u "heavy-rain");
    ([u "гроза"], u "thunderstorm");
    ([u "небольшой снег"; u "слабый снег"], u "light-snow");
    ([u "снег"], u "snow");
    ([u "метель"; u "сильный снег"], u "heavy-snow");
    ([u "туман"], u "fog");
    ([u "мгла"; u "дымка"], u "haze");
    ([u "морось"], u "drizzle");
    ([u "град"], u "hail") ].

(** The sixteen codes and [unknown]. *)
Definition condition_codes : list str :=
  map snd condition_rules ++ [u "unknown"].

(** The code of the first rule one of whose phrases is in [text]. *)
Fixpoint first_rule (rules : list (list str * str)) (text : str) : str :=
  match rules with
  | [] => u "unknown"
  | (phrases, code) :: rules' =>
      if existsb (fun phrase => contains phrase text) phrases then code
      else first_rule rules' text
  end.

Definition rule_matches (text : str) (rule : list str * str) : Prop :=
  Exists (fun phrase => occurs phrase text) rule.1.

(** [code] is the code of the first rule that matches [text], or [unknown]
    when no rule matches. *)
Definition selects (rules : list (list str * str)) (text code : str) : Prop :=
  (exists before phrases after,
      rules = before ++ (phrases, code) :: after
      /\ rule_matches text (phrases, code)
      /\ Forall (fun rule => ~ rule_matches text rule) before)
  \/ (code = u "unknown" /\ Forall (fun rule => ~ rule_matches text rule) rules).

(** None of the three ways of [parse_weather] finds the fact block: no
    [div] with the exact class, no [div] with a class that contains the
    stable part of it, and no [div] around the first [span] whose class
    contains the name of the temperature value. *)
Definition no_fact_block (soup : element) : Prop :=
  select_one (tag_class "div" "AppFact_wrap__N4SYB") soup = None
  /\ find (u "div") (contains (u "AppFact_wrap__")) soup = None
  /\ forall v, find (u "span") (contains (u "AppFactTemperature_value")) soup = Some v ->
               find_parent (u "div") v = None.

(** The list item around a day block carries a class with [climateStart]
    in it. *)
Definition in_placeholder_item (day_block : element) : Prop :=
  exists li cls,
    find_parent (u "li") day_block = Some li
    /\ cls ∈ get_class_or_empty (here li)
    /\ occurs (u "climateStart") cls.

(** The selectors of the month view and of the details of either view. *)
Definition month_article : selector := tag_class "article" "AppMonth_month__CunyE".

Definition month_day : selector := tag_class "div" "AppMonthCalendarDay_day__GjOhu".




(** A key without a NaN among its coordinates. *)
Definition no_nan (k : str * float * float) : Prop :=
  isnan k.1.2 = false /\ isnan k.2 = false.

(** The two endpoints, their scopes and their handlers. *)
Inductive endpoint := WeatherTotal | WeatherMonth.

Definition scope_of (ep : endpoint) : str :=
  match ep with
  | WeatherTotal => u "current"
  | WeatherMonth => u "month"
  end.

Section ServiceVocabulary.
Context `{Unicode}.
Context (float_str : float -> str) (BeautifulSoup : str -> result str node).

Definition handler (ep : endpoint) :=
  match ep with
  | WeatherTotal => get_weather_total float_str BeautifulSoup
  | WeatherMonth => get_weather_month float_str BeautifulSoup
  end.

(** The extractor of the endpoint raises [ValueError(msg)] on [text]. *)
Definition extraction_fails (ep : endpoint) (text msg : str) : Prop :=
  match ep with
  | WeatherTotal => parse_weather BeautifulSoup text = Err (ValueError msg)
  | WeatherMonth => parse_month BeautifulSoup text = Err (ValueError msg)
  end.

(** The request of the endpoint fails, and [error] is what the handler
    raises when it has nothing to fall back on: 502 when the page could not
    be fetched, 500 when the extractor raised. *)
Definition fails_with (ep : endpoint) (upstream : fetched) (error : HTTPException) : Prop :=
  (exists exc,
      upstream = RequestException exc
      /\ error = Http 502 (u "Failed to fetch source page: " ++ exc))
  \/ (exists text msg,
      upstream = Response text /\ extraction_fails ep text msg
      /\ error = Http 500 msg).

End ServiceVocabulary.

(** ** Fixtures

    The documents, the cache and the environment on which the examples of
    Part II are evaluated.  The parser and the writing of a coordinate are
    arguments of the model: an example gives the document that the parser
    builds for its page, and takes whole numbers as coordinates. *)

Definition el (tag cls : string) (contents : list node) : node :=
  Tag (u tag) (Some [u cls]) [] contents.

Definition txt (s : string) : node := NavigableString (u s).

Definition document (contents : list node) : node := Tag (u "[document]") None [] contents.

(** A parser that builds [doc], and one that rejects its input as
    [html.parser] rejects an unknown marked section. *)
Definition parser_giving (doc : node) (html : str) : result str node := Ok doc.

Definition parser_rejecting (html : str) : result str node :=
  Err (u "unknown status keyword 'foo' in marked section").

(** The fact block of the specification's end-to-end example. *)
Definition fact_fixture : node :=
  document
    [ el "div" "AppFact_wrap__N4SYB"
        [ el "p" "AppFactTemperature_content__Lx4p9"
            [ el "span" "AppFactTemperature_sign__1MeN4" [txt "+"];
              el "span" "AppFactTemperature_value__2qhsG" [txt "3"];
              el "span" "AppFactTemperature_degree__LL_2v" [txt "°"] ];
          el "p" "AppFact_warning__8kUUn" [txt " Облачно с прояснениями "];
          el "span" "AppFact_feels__IJoel" [txt "Ощущается как +1°"];
          el "ul" "AppFact_details__OYahy"
            [ el "li" "AppFact_details__item__QFIXI" [txt "СЗ, 3 м/с"];
              el "li" "AppFact_details__item__QFIXI" [txt "758 мм рт. ст."];
              el "li" "AppFact_details__item__QFIXI" [txt "65%"];
              el "li" "AppFact_details__item__QFIXI" [txt "18°"] ] ] ].

(** A page without any of the classes that [parse_weather] looks for. *)
Definition plain_fixture : node :=
  document [ Tag (u "p") None [] [txt "Service unavailable"] ].

Definition day_block_fixture (number : string) : node :=
  el "div" "AppMonthCalendarDay_day__GjOhu"
    [ Tag (u "a") (Some [u "AppMonthCalendarDay_day__date__QDruE"])
          [(u "aria-label", u number)] [txt number] ].

(** A month whose only day block stands in a [climateStart] item. *)
Definition placeholder_month_item : node :=
  Tag (u "li") (Some [u "AppMonthCalendar_item__a1"; u "AppMonthCalendar_climateStart__b2"])
      [] [day_block_fixture "1"].

Definition placeholder_month_article : node :=
  el "article" "AppMonth_month__CunyE"
    [ Tag (u "ul") None [] [placeholder_month_item] ].

Definition placeholder_month_fixture : node := document [placeholder_month_article].

(** A month with a placeholder and one day. *)
Definition november_second : node :=
  Tag (u "li") (Some [u "AppMonthCalendar_item__a1"]) []
    [ el "div" "AppMonthCalendarDay_day__GjOhu"
        [ Tag (u "a") (Some [u "AppMonthCalendarDay_day__date__QDruE"])
              [(u "aria-label", u "2 ноября")] [txt " 2 "];
          el "p" "AppMonthCalendarDay_temperature__4x_Yx"
            [ el "span" "AppMonthCalendarDay_temperature__number__VSntF" [txt "+5°"];
              Tag (u "span")
                  (Some [u "AppMonthCalendarDay_temperature__number__VSntF";
                         u "AppMonthCalendarDay_temperature__number_night__ggkzj"])
                  [] [txt "+1°"] ] ];
      el "div" "AppMonthCalendarDayDetailedInfo_details__Z6kgi"
        [ el "p" "AppMonthCalendarDayDetailedInfo_details__feelsLike__nXzvQ"
             [txt "Ощущается как +2°"];
          el "ul" "AppMonthCalendarDayDetailedInfo_params__7Z8Yt"
            [ Tag (u "li") None [] [txt "750 мм рт. ст."];
              Tag (u "li") None [] [txt "80%"];
              Tag (u "li") None [] [txt "3 м/с, ";  txt "СЗ"] ] ] ].

Definition month_fixture : node :=
  document
    [ el "article" "AppMonth_month__CunyE"
        [ Tag (u "ul") None [] [placeholder_month_item; november_second] ] ].

(** Whole numbers below [2 ^ 53] as floats, in canonical form. *)
Definition float_of_whole (z : Z) : float :=
  match z with
  | Z0 => S754_zero false
  | Zpos p =>
      let shift := (53 - Z.log2 (Zpos p) - 1)%Z in
      S754_finite false (Pos.shiftl p (Z.to_N shift)) (- shift)
  | Zneg p =>
      let shift := (53 - Z.log2 (Zpos p) - 1)%Z in
      S754_finite true (Pos.shiftl p (Z.to_N shift)) (- shift)
  end.

(** The coordinates of the examples, [55.0] and [37.0], the zero with the
    sign and a NaN. *)
Definition lat_55 : float := float_of_whole 55.

Definition lon_37 : float := float_of_whole 37.

Definition minus_zero : float := S754_zero true.

Definition nan : float := S754_nan.

(** How Python writes the coordinates of the examples; the other floats are
    not in this table. *)
Definition fixture_float_str (x : float) : str :=
  match x with
  | S754_zero false => u "0.0"
  | S754_zero true => u "-0.0"
  | S754_nan => u "nan"
  | _ =>
      if float_eqb x lat_55 then u "55.0"
      else if float_eqb x lon_37 then u "37.0"
      else []
  end.

(** An entry stored at the instant 0. *)
Definition old_record : weather :=
  Weather (Some (u "+3°")) (Some (u "clear")) (Some (u "Ясно"))
          None None None None None None None.

Definition old_cache : dict :=
  Dict [ ((u "current", lat_55, lon_37), Entry 0 (Current old_record)) ].

(** ** Sequences of requests *)

(** What a payload must be under a scope: the record of the current
    conditions under [current], a list of days that is not empty under
    [month]. *)
Definition payload_fits (scope : str) (d : payload) : Prop :=
  match d with
  | Current _ => scope = u "current"
  | Month days => scope = u "month" /\ days <> []
  end.

Section TraceVocabulary.
Context `{Unicode}.
Context (float_str : float -> str) (BeautifulSoup : str -> result str node).

(** The address of the source page that an endpoint writes into its
    answers. *)
Definition source_url (ep : endpoint) (lat lon : float) : str :=
  match ep with
  | WeatherTotal =>
      u "https://yandex.ru/pogoda/ru?lat=" ++ float_str lat ++ u "&lon=" ++ float_str lon
  | WeatherMonth =>
      u "https://yandex.ru/pogoda/ru/month?lat=" ++ float_str lat ++ u "&lon=" ++ float_str lon
  end.


(** The extractor of the endpoint returns the payload [d] on [text]. *)
Definition extraction_gives (ep : endpoint) (text : str) (d : payload) : Prop :=
  match ep with
  | WeatherTotal => exists w, parse_weather BeautifulSoup text = Ok w /\ d = Current w
  | WeatherMonth => exists days, parse_month BeautifulSoup text = Ok days /\ d = Month days
  end.

(** The parser rejects [text], with the message [msg]. *)
Definition parser_rejects (text msg : str) : Prop := BeautifulSoup text = Err msg.

(** The five kinds of answer: the entry of the first look-up, the entry of
    the look-up after a failure, the error of a failure, the exception of
    the parser, which no handler catches, and the fresh payload. *)
Inductive answered (ep : endpoint) (lat lon : float) (now1 now2 : Z)
    (upstream : fetched) (_cache : dict) : result raised envelope * dict -> Prop :=
| answered_hit d :
    _get_cached (scope_of ep) lat lon now1 _cache = Some d ->
    payload_truthy d = true ->
    answered ep lat lon now1 now2 upstream _cache
      (Ok (Envelope lat lon (source_url ep lat lon) d true), _cache)
| answered_fallback error d :
    truthy_payload (_get_cached (scope_of ep) lat lon now1 _cache) = false ->
    fails_with BeautifulSoup ep upstream error ->
    _get_cached (scope_of ep) lat lon now2 _cache = Some d ->
    payload_truthy d = true ->
    answered ep lat lon now1 now2 upstream _cache
      (Ok (Envelope lat lon (source_url ep lat lon) d true), _cache)
| answered_error error :
    truthy_payload (_get_cached (scope_of ep) lat lon now1 _cache) = false ->
    fails_with BeautifulSoup ep upstream error ->
    truthy_payload (_get_cached (scope_of ep) lat lon now2 _cache) = false ->
    answered ep lat lon now1 now2 upstream _cache (Err (HTTP error), _cache)
| answered_rejected text msg :
    truthy_payload (_get_cached (scope_of ep) lat lon now1 _cache) = false ->
    upstream = Response text ->
    parser_rejects text msg ->
    answered ep lat lon now1 now2 upstream _cache
      (Err (Uncaught (ParserRejectedMarkup msg)), _cache)
| answered_fresh text d :
    truthy_payload (_get_cached (scope_of ep) lat lon now1 _cache) = false ->
    upstream = Response text ->
    extraction_gives ep text d ->
    answered ep lat lon now1 now2 upstream _cache
      (Ok (Envelope lat lon (source_url ep lat lon) d false),
       _set_cached (scope_of ep) lat lon d now2 _cache).




End TraceVocabulary.

(** ** Stripped text *)

Section StripVocabulary.
Context `{Unicode}.

Definition all_space (s : str) : Prop := Forall (fun c => isspace c = true) s.

(** [w] neither starts nor ends with white space. *)
Definition trimmed (w : str) : Prop :=
  (forall c w', w = c :: w' -> isspace c = false)
  /\ (forall c w', w = w' ++ [c] -> isspace c = false).

(** A text that is not empty and has no white space at its ends. *)
Definition solid (w : str) : Prop := w <> [] /\ trimmed w.

(** [w] is [text] without the white space at its two ends. *)
Definition strip_of (text w : str) : Prop :=
  exists pre post,
    text = pre ++ w ++ post /\ all_space pre /\ all_space post /\ trimmed w.

End StripVocabulary.

(** ** Places in the document *)

(** [x] is the first element below [soup] with the property [P], in the
    order of the document. *)
Definition first_below (P : element -> Prop) (soup x : element) : Prop :=
  exists before after,
    descendants soup = before ++ x :: after /\ P x /\ Forall (fun d => ~ P d) before.

(** No element below [soup] has the property [P]. *)
Definition none_below (P : element -> Prop) (soup : element) : Prop :=
  Forall (fun d => ~ P d) (descendants soup).

(** A tag of that name with [cls] among its class names. *)
Definition tag_with_class (name cls : str) (d : element) : Prop :=
  is_tag name (here d) = true /\ cls ∈ get_class_or_empty (here d).

(** A tag of that name with a class attribute in which [part] occurs: in
    one of the class names, or in the attribute as it is written. *)
Definition tag_with_class_part (name part : str) (d : element) : Prop :=
  is_tag name (here d) = true
  /\ exists classes,
       get_class (here d) = Some classes
       /\ (Exists (occurs part) classes \/ occurs part (join (u " ") classes)).

(** [p] is the nearest parent of [x] that is a tag of that name. *)
Definition nearest_parent (name : str) (x p : element) : Prop :=
  exists near,
    parents x = near ++ here p :: parents p
    /\ is_tag name (here p) = true
    /\ Forall (fun n => is_tag name n = false) near.

(** ** More fixtures *)

(** The record of the specification's end-to-end example. *)
Definition fact_record : weather :=
  {| w_temperature := Some (u "+3°");
     w_condition := Some (u "cloudy-and-clear");
     w_condition_text := Some (u "Облачно с прояснениями");
     w_feels_like := Some (u "+1°");
     w_yesterday_full := None;
     w_yesterday_short := None;
     w_wind := Some (u "СЗ, 3 м/с");
     w_pressure := Some (u "758");
     w_humidity := Some (u "65");
     w_water_temperature := Some (u "18°") |}.

(** The selector of the date link of a day block. *)
Definition day_link : selector := tag_class "a" "AppMonthCalendarDay_day__date__QDruE".

(** A page whose fact block has another hash in its class. *)
Definition rehashed_block : node := el "div" "AppFact_wrap__Zq81x" [txt "+3°"].

Definition rehashed_fixture : node := document [rehashed_block].

(* ===================================================================== *)
(** * Part II: the properties                                             *)
(* ===================================================================== *)

(** ** Strings *)

Lemma startswith_spec (needle text : str) :
  startswith needle text = true <-> exists post, text = needle ++ post.
Proof.
  revert text. induction needle as [|x needle IH]; intros text; simpl.
  - split; [intros _; by exists text | done].
  - destruct text as [|y text].
    + split; [done | intros [post Hp]; discriminate].
    + rewrite andb_true_iff, N.eqb_eq, IH. split.
      * intros [-> [post ->]]. by exists post.
      * intros [post Hp]. injection Hp as -> ->. split; [done | by exists post].
Qed.

Lemma contains_spec (needle text : str) :
  contains needle text = true <-> occurs needle text.
Proof.
  induction text as [|y text IH]; simpl.
  - rewrite orb_false_r, startswith_spec. split.
    + intros [post Hp]. by exists [], post.
    + intros (pre & post & Hp). destruct pre; [by exists post | discriminate].
  - rewrite orb_true_iff, startswith_spec, IH. split.
    + intros [[post Hp] | (pre & post & Hp)].
      * by exists [], post.
      * exists (y :: pre), post. by rewrite Hp.
    + intros (pre & post & Hp). destruct pre as [|p pre].
      * left. by exists post.
      * right. injection Hp as -> Hp. by exists pre, post.
Qed.

Lemma contains_false (needle text : str) :
  contains needle text = false <-> ~ occurs needle text.
Proof. rewrite <- contains_spec. by destruct (contains needle text). Qed.

(** ** [re.search] *)

Section SearchProperties.
Context `{Unicode}.

Lemma re_search_here (at_ : str -> option str) (text m : str) :
  at_ text = Some m -> re_search at_ text = Some m.
Proof. intros Hm. destruct text; simpl; by rewrite Hm. Qed.

(** The result of [re.search] for a pattern whose match at a position, when
    there is one, is the longest substring with [P] that starts there. *)
Lemma re_search_first_longest (at_ : str -> option str) (P : str -> Prop) :
  (forall s m, at_ s = Some m -> P m /\ exists post, s = m ++ post) ->
  (forall s m' post, s = m' ++ post -> P m' ->
     exists m, at_ s = Some m /\ (length m' <= length m)%nat) ->
  forall text,
    match re_search at_ text with
    | Some m => first_longest P text m
    | None => forall m, occurs m text -> ~ P m
    end.
Proof.
  intros Hsound Hcomplete text.
  assert (Hhere : forall s m, at_ s = Some m -> first_longest P s m).
  { intros s m Hm. destruct (Hsound _ _ Hm) as [HP [post ->]].
    exists [], post. split; [done | split; [done |]].
    intros [|x pre'] m' post' Heq HP'; simpl; [right | left; lia].
    destruct (Hcomplete _ m' post' Heq HP') as (m0 & Hm0 & Hlen).
    rewrite Hm in Hm0. injection Hm0 as <-. done. }
  assert (Hnone : forall s m post, at_ s = None -> s = m ++ post -> ~ P m).
  { intros s m post Hs Heq HP. destruct (Hcomplete _ m post Heq HP) as (m0 & Hm0 & _).
    congruence. }
  induction text as [|c rest IH]; simpl.
  - destruct (at_ []) as [m|] eqn:Hat; [by apply Hhere |].
    intros m (pre & post & Heq).
    destruct pre; [| discriminate]. eapply (Hnone [] m post); eauto.
  - destruct (at_ (c :: rest)) as [m|] eqn:Hat; [by apply Hhere |].
    destruct (re_search at_ rest) as [m|].
    + destruct IH as (pre & post & -> & HP & Hfirst).
      exists (c :: pre), post. split; [done | split; [done |]].
      intros [|x pre'] m' post' Heq HP'.
      * exfalso. by eapply (Hnone _ m' post' Hat Heq).
      * injection Heq as <- Heq. destruct (Hfirst _ _ _ Heq HP'); simpl; lia.
    + intros m ([|x pre] & post & Heq).
      * by eapply (Hnone _ m post Hat Heq).
      * injection Heq as <- Heq. apply IH. by exists pre, post.
Qed.

Lemma first_longest_unique (P : str -> Prop) (text m m' : str) :
  first_longest P text m -> first_longest P text m' -> m = m'.
Proof.
  intros (pre & post & Heq & HP & Hfirst) (pre' & post' & Heq' & HP' & Hfirst').
  destruct (Hfirst _ _ _ Heq' HP') as [?|[? ?]];
    destruct (Hfirst' _ _ _ Heq HP) as [?|[? ?]]; try lia.
  rewrite Heq in Heq'.
  apply app_inj_1 in Heq' as [_ Heq']; [| done].
  apply app_inj_1 in Heq' as [? _]; [done | lia].
Qed.

Lemma first_longest_occurs (P : str -> Prop) (text m : str) :
  first_longest P text m -> occurs m text /\ P m.
Proof. intros (pre & post & Heq & HP & _). split; [by exists pre, post | done]. Qed.

(** *** The digits *)

Lemma digit_run_all_digits (s : str) : all_digits (digit_run s).
Proof.
  induction s as [|c s IH]; simpl; [constructor |].
  destruct (isdecimal c) eqn:Hc; by constructor.
Qed.

Lemma digit_run_prefix (s : str) :
  exists post, s = digit_run s ++ post
    /\ match post with c :: _ => isdecimal c = false | [] => True end.
Proof.
  induction s as [|c s (post & IH & Hpost)]; simpl; [by exists [] |].
  destruct (isdecimal c) eqn:Hc.
  - exists post. split; [simpl; by f_equal | done].
  - by exists (c :: s).
Qed.

Lemma digit_run_app (m post : str) :
  all_digits m ->
  match post with c :: _ => isdecimal c = false | [] => True end ->
  digit_run (m ++ post) = m.
Proof.
  intros Hm Hpost. induction Hm as [|c m Hc _ IH]; simpl.
  - destruct post as [|c post]; simpl; [done | by rewrite Hpost].
  - by rewrite Hc, IH.
Qed.

Lemma re_digits_no_digit (c : char) (s : str) :
  isdecimal c = false -> re_digits (c :: s) = None.
Proof. intros Hc. unfold re_digits. simpl. by rewrite Hc. Qed.

(** A first run of digits is what the search returns. *)
Lemma first_digit_run_found (text m : str) :
  first_digit_run text m -> re_search re_digits text = Some m.
Proof.
  intros (pre & post & -> & Hne & Hm & Hpre & Hpost).
  induction Hpre as [|c pre Hc _ IH].
  - simpl. assert (Hrun : re_digits (m ++ post) = Some m).
    { unfold re_digits. rewrite digit_run_app by done. by destruct m. }
    by apply re_search_here.
  - simpl. by rewrite re_digits_no_digit.
Qed.

Lemma re_search_digits (text : str) :
  match re_search re_digits text with
  | Some m => first_digit_run text m
  | None => no_digit text
  end.
Proof.
  induction text as [|c rest IH]; simpl; [constructor |].
  destruct (isdecimal c) eqn:Hc.
  - unfold re_digits. simpl. rewrite Hc.
    destruct (digit_run_prefix rest) as (post & Heq & Hpost).
    exists [], post. simpl. rewrite <- Heq.
    repeat split; [done | | constructor | done].
    constructor; [done | apply digit_run_all_digits].
  - rewrite re_digits_no_digit by done.
    destruct (re_search re_digits rest) as [m|].
    + destruct IH as (pre & post & -> & Hne & Hm & Hpre & Hpost).
      exists (c :: pre), post. repeat split; try done. by constructor.
    + by constructor.
Qed.

Lemma no_digit_not_Exists (text : str) :
  no_digit text <-> ~ Exists (fun c => isdecimal c = true) text.
Proof.
  unfold no_digit. rewrite <- Forall_Exists_neg. apply Forall_iff.
  intros c. by destruct (isdecimal c).
Qed.

Lemma first_digit_run_has_digit (text m : str) :
  first_digit_run text m -> Exists (fun c => isdecimal c = true) text.
Proof.
  intros (pre & post & -> & Hne & Hm & _).
  destruct Hm as [|c m Hc _]; [done |].
  apply Exists_app. right. by left.
Qed.

End SearchProperties.

(** ** The temperature pattern *)

Section TemperatureProperties.
Context `{Unicode}.

Lemma re_digits_degree_sound (s m : str) :
  re_digits_degree s = Some m ->
  exists digits post,
    m = digits ++ [degree] /\ digits <> [] /\ all_digits digits /\ s = m ++ post.
Proof.
  revert m. induction s as [|c s IH]; intros m; simpl; [done |].
  destruct (isdecimal c) eqn:Hc; [| done].
  destruct (re_digits_degree s) as [m1|].
  - intros [= <-]. destruct (IH m1 eq_refl) as (digits & post & -> & _ & Hd & Hs).
    exists (c :: digits), post. repeat split; [done | by constructor | by rewrite Hs at 1].
  - destruct s as [|d s]; [done |].
    destruct (d =? degree) eqn:Hd; [| done].
    apply N.eqb_eq in Hd as ->. intros [= <-].
    exists [c], s. repeat split; [done | by repeat constructor].
Qed.

Lemma re_digits_degree_cons (c : char) (s : str) :
  re_digits_degree (c :: s) =
  if isdecimal c then
    match re_digits_degree s with
    | Some m => Some (c :: m)
    | None =>
        match s with
        | d :: _ => if d =? degree then Some [c; d] else None
        | [] => None
        end
    end
  else None.
Proof. reflexivity. Qed.

Lemma re_digits_degree_complete (digits post : str) :
  digits <> [] -> all_digits digits ->
  exists m, re_digits_degree (digits ++ [degree] ++ post) = Some m
            /\ (length digits + 1 <= length m)%nat.
Proof.
  intros Hne Hd. induction Hd as [|c digits Hc Hd IH]; [done |].
  cbn [app]. rewrite re_digits_degree_cons, Hc. destruct digits as [|c' digits].
  - cbn [app]. destruct (re_digits_degree (degree :: post)) as [m1|] eqn:Hm1.
    + destruct (re_digits_degree_sound _ _ Hm1) as (ds & _ & -> & _).
      eexists. split; [done |]. simpl. rewrite length_app. simpl. lia.
    + rewrite N.eqb_refl. eexists. split; [done |]. simpl. lia.
  - destruct IH as (m1 & Hm1 & Hlen); [done |].
    cbn [app] in *. rewrite Hm1.
    eexists. split; [done |]. simpl in *. lia.
Qed.

Lemma is_sign_spec (c : char) : is_sign c = true <-> c = 43 \/ c = 45.
Proof. unfold is_sign. by rewrite orb_true_iff, !N.eqb_eq. Qed.

Lemma re_temperature_cons (c : char) (s : str) :
  re_temperature (c :: s) =
  if is_sign c then
    match re_digits_degree s with
    | Some m => Some (c :: m)
    | None => re_digits_degree (c :: s)
    end
  else re_digits_degree (c :: s).
Proof. reflexivity. Qed.

Lemma re_temperature_sound (s m : str) :
  re_temperature s = Some m ->
  temperature_shaped m /\ exists post, s = m ++ post.
Proof.
  assert (Hplain : forall m, re_digits_degree s = Some m ->
            temperature_shaped m /\ exists post, s = m ++ post).
  { intros m' Hm'. destruct (re_digits_degree_sound _ _ Hm') as (ds & post & -> & ? & ? & ?).
    split; [| by exists post]. exists [], ds. auto. }
  destruct s as [|c s]; [done |]. rewrite re_temperature_cons.
  destruct (is_sign c) eqn:Hc; [| by apply Hplain].
  destruct (re_digits_degree s) as [m1|] eqn:Hm1; [| by apply Hplain].
  intros [= <-]. destruct (re_digits_degree_sound _ _ Hm1) as (ds & post & -> & ? & ? & Hs).
  split.
  - exists [c], ds. apply is_sign_spec in Hc as [-> | ->]; auto.
  - exists post. by rewrite Hs at 1.
Qed.

Lemma re_temperature_complete (s m' post : str) :
  s = m' ++ post -> temperature_shaped m' ->
  exists m, re_temperature s = Some m /\ (length m' <= length m)%nat.
Proof.
  intros -> (sign & ds & -> & Hsign & Hne & Hds).
  assert (Hlen : forall l : str, length (l ++ [degree]) = (length l + 1)%nat).
  { intros l. by rewrite length_app. }
  rewrite <- !app_assoc.
  destruct (re_digits_degree_complete ds post Hne Hds) as (m & Hm & Hle).
  destruct Hsign as [-> | Hsign].
  - cbn [app] in *. rewrite Hlen.
    destruct ds as [|c ds]; [done |]. cbn [app] in *.
    rewrite re_temperature_cons, Hm.
    destruct (is_sign c); [| by exists m].
    destruct (re_digits_degree (ds ++ degree :: post)) as [m1|] eqn:Hm1; [| by exists m].
    exists (c :: m1). split; [done |].
    destruct ds as [|c' ds].
    + destruct (re_digits_degree_sound _ _ Hm1) as (ds1 & _ & -> & _).
      simpl. rewrite Hlen. lia.
    + inversion Hds as [|? ? _ Hds']; subst.
      destruct (re_digits_degree_complete (c' :: ds) post) as (m2 & Hm2 & Hle2); [done.. |].
      cbn [app] in Hm1, Hm2. rewrite Hm1 in Hm2. injection Hm2 as <-. simpl in *. lia.
  - assert (exists c, sign = [c] /\ is_sign c = true) as (c & -> & Hc).
    { destruct Hsign as [-> | ->]; eexists; split; done. }
    cbn [app] in *. rewrite re_temperature_cons, Hc, Hm.
    exists (c :: m). split; [done |].
    simpl. rewrite Hlen. lia.
Qed.

Lemma extract_temperature_search (text : str) :
  _extract_temperature (Some text) = re_search re_temperature text.
Proof. by destruct text. Qed.

Lemma extract_pressure_search (text : str) :
  _extract_pressure (Some text) = re_search re_digits text.
Proof. by destruct text. Qed.

Lemma re_search_temperature (text : str) :
  match re_search re_temperature text with
  | Some m => first_longest temperature_shaped text m
  | None => forall m, occurs m text -> ~ temperature_shaped m
  end.
Proof.
  apply re_search_first_longest.
  - apply re_temperature_sound.
  - apply re_temperature_complete.
Qed.

End TemperatureProperties.

(** ** The helpers on text below U+0660

    On such text the helpers do not depend on the version of the tables:
    they can be evaluated on [basic_unicode]. *)

Section BasicText.
Context `{Unicode}.

Lemma below_arabic_cons (c : char) (s : str) :
  below_arabic (c :: s) = true -> isdecimal c = ascii_digit c /\ below_arabic s = true.
Proof.
  unfold below_arabic. simpl. rewrite andb_true_iff, N.ltb_lt.
  intros [Hc Hs]. split; [by apply isdecimal_below_arabic | done].
Qed.

Lemma digit_run_basic (s : str) :
  below_arabic s = true -> digit_run s = @digit_run basic_unicode s.
Proof.
  induction s as [|c s IH]; [done |].
  intros [Hc Hs]%below_arabic_cons. simpl. rewrite Hc, IH; done.
Qed.

Lemma re_digits_basic (s : str) :
  below_arabic s = true -> re_digits s = @re_digits basic_unicode s.
Proof. intros Hs. unfold re_digits. by rewrite digit_run_basic. Qed.

Lemma re_digits_degree_basic (s : str) :
  below_arabic s = true -> re_digits_degree s = @re_digits_degree basic_unicode s.
Proof.
  induction s as [|c s IH]; [done |].
  intros [Hc Hs]%below_arabic_cons. simpl. rewrite Hc, IH; done.
Qed.

Lemma re_temperature_basic (s : str) :
  below_arabic s = true -> re_temperature s = @re_temperature basic_unicode s.
Proof.
  destruct s as [|c s]; [done |]. intros Hcs.
  rewrite !re_temperature_cons, (re_digits_degree_basic _ Hcs).
  apply below_arabic_cons in Hcs as [_ Hs]. by rewrite (re_digits_degree_basic _ Hs).
Qed.

Lemma re_search_agree (at1 at2 : str -> option str) (s : str) :
  (forall s', below_arabic s' = true -> at1 s' = at2 s') ->
  below_arabic s = true -> re_search at1 s = re_search at2 s.
Proof.
  intros Hat. induction s as [|c s IH]; intros Hs; simpl.
  - by rewrite Hat.
  - rewrite Hat by done. destruct (at2 (c :: s)); [done |].
    apply IH. unfold below_arabic in *. simpl in Hs. by apply andb_true_iff in Hs as [_ ?].
Qed.

Lemma extract_temperature_basic (text : str) :
  below_arabic text = true ->
  _extract_temperature (Some text) = @_extract_temperature basic_unicode (Some text).
Proof.
  intros Hs. rewrite !extract_temperature_search.
  by apply re_search_agree; [apply re_temperature_basic |].
Qed.

Lemma extract_pressure_basic (text : str) :
  below_arabic text = true ->
  _extract_pressure (Some text) = @_extract_pressure basic_unicode (Some text).
Proof.
  intros Hs. rewrite !extract_pressure_search.
  by apply re_search_agree; [apply re_digits_basic |].
Qed.

End BasicText.

(** ** The normalizer helpers *)

Section HelperProperties.
Context `{Unicode}.

(** C7. On a text that is present, the temperature helper returns the first
    substring made of an optional sign, one or more digits and a degree sign,
    as it stands in the text, and [None] when the text has no such substring;
    on "Ощущается как +3°" it returns "+3°". *)
Theorem extract_temperature_first_match :
  (forall text m,
      _extract_temperature (Some text) = Some m
      <-> first_longest temperature_shaped text m)
  /\ (forall text,
      _extract_temperature (Some text) = None
      <-> ~ exists m, occurs m text /\ temperature_shaped m)
  /\ _extract_temperature (Some (u "Ощущается как +3°")) = Some (u "+3°").
Proof.
  split; [| split].
  - intros text m. rewrite extract_temperature_search.
    pose proof (re_search_temperature text) as Hs.
    destruct (re_search re_temperature text) as [m0|].
    + split; [by intros [= <-] |].
      intros Hm. f_equal. eapply first_longest_unique; eauto.
    + split; [done |]. intros [Hocc HP]%first_longest_occurs. by destruct (Hs m).
  - intros text. rewrite extract_temperature_search.
    pose proof (re_search_temperature text) as Hs.
    destruct (re_search re_temperature text) as [m0|].
    + split; [done |]. intros Hno. destruct Hno.
      exists m0. by apply first_longest_occurs in Hs.
    + split; [| done]. intros _ (m & Hocc & HP). by destruct (Hs m).
  - rewrite extract_temperature_basic; vm_compute; reflexivity.
Qed.

(** C8. On a text that is present, the pressure helper and the humidity
    helper, which is the same function, return the first run of digits and
    nothing of what surrounds it, and [None] when the text has no digit;
    "758 мм рт. ст." gives "758" and "65%" gives "65". *)
Theorem extract_pressure_humidity_first_digits :
  (forall t, _extract_humidity t = _extract_pressure t)
  /\ (forall text m,
      _extract_pressure (Some text) = Some m <-> first_digit_run text m)
  /\ (forall text, _extract_pressure (Some text) = None <-> no_digit text)
  /\ _extract_pressure (Some (u "758 мм рт. ст.")) = Some (u "758")
  /\ _extract_humidity (Some (u "65%")) = Some (u "65").
Proof.
  split; [done |]. split; [| split; [| split]].
  - intros text m. rewrite extract_pressure_search. split.
    + intros Hm. pose proof (re_search_digits text) as Hs. by rewrite Hm in Hs.
    + apply first_digit_run_found.
  - intros text. rewrite extract_pressure_search.
    pose proof (re_search_digits text) as Hs.
    destruct (re_search re_digits text) as [m|]; [| done].
    split; [done |]. intros Hno%no_digit_not_Exists.
    destruct Hno. by eapply first_digit_run_has_digit.
  - rewrite extract_pressure_basic; vm_compute; reflexivity.
  - change (_extract_humidity ?t) with (_extract_pressure t).
    rewrite extract_pressure_basic; vm_compute; reflexivity.
Qed.

(** C6, as the code has it.  Each of the four helpers returns [None] exactly
    when its input is [None], is the empty text, or has nothing of what the
    helper looks for; so [None] always gives [None], and a text that is not
    empty and has a match gives a result.  The wind helper matches no
    pattern: it returns [None] for [None] and for the empty text only. *)
Theorem helpers_absent_iff :
  (forall h t,
      run_helper h t = None
      <-> t = None \/ t = Some [] \/ exists text, t = Some text /\ ~ has_match h text)
  /\ (forall h, run_helper h None = None)
  /\ (forall h text, text <> [] -> has_match h text ->
        exists out, run_helper h (Some text) = Some out)
  /\ (forall text, text <> [] -> _extract_wind (Some text) = Some (strip text))
  /\ _extract_temperature (Some (u "нет данных")) = None.
Proof.
  assert (Hmain : forall h c s,
            run_helper h (Some (c :: s)) = None <-> ~ has_match h (c :: s)).
  { intros h c s. destruct h; simpl.
    - rewrite extract_temperature_search.
      pose proof (re_search_temperature (c :: s)) as Hs.
      destruct (re_search re_temperature (c :: s)) as [m|].
      + split; [done |]. intros Hno. destruct Hno.
        exists m. by apply first_longest_occurs in Hs.
      + split; [| done]. intros _ (m & Hocc & HP). by destruct (Hs m).
    - unfold _extract_wind. simpl. split; [done | tauto].
    - rewrite extract_pressure_search, <- no_digit_not_Exists.
      pose proof (re_search_digits (c :: s)) as Hs.
      destruct (re_search re_digits (c :: s)) as [m|]; [| done].
      split; [done |]. intros Hno%no_digit_not_Exists.
      destruct Hno. by eapply first_digit_run_has_digit.
    - change (_extract_humidity ?t) with (_extract_pressure t).
      rewrite extract_pressure_search, <- no_digit_not_Exists.
      pose proof (re_search_digits (c :: s)) as Hs.
      destruct (re_search re_digits (c :: s)) as [m|]; [| done].
      split; [done |]. intros Hno%no_digit_not_Exists.
      destruct Hno. by eapply first_digit_run_has_digit. }
  split; [| split; [| split; [| split]]].
  - intros h [[|c s]|].
    + split; [auto | by destruct h].
    + rewrite Hmain. split.
      * intros Hno. right. right. by exists (c :: s).
      * intros [? | [? | (text & [= <-] & Hno)]]; done.
    + split; [auto | by destruct h].
  - by intros [].
  - intros h [|c s] Hne Hm; [done |].
    destruct (run_helper h (Some (c :: s))) as [out|] eqn:Hout; [by exists out |].
    by apply Hmain in Hout.
  - by intros [|c s].
  - rewrite extract_temperature_basic; vm_compute; reflexivity.
Qed.

End HelperProperties.

(** C6, as the specification states it, fails for the wind helper on the empty text:
    the text is present and the helper matches no pattern, and the result is
    [None]. *)
Lemma wind_empty_text_absent :
  let t : option str := Some [] in
  @run_helper basic_unicode Wind t = None
  /\ ~ (t = None \/ exists text, t = Some text /\ ~ @has_match basic_unicode Wind text).
Proof.
  split; [done |]. intros [? | (text & _ & Hno)]; [done |]. by apply Hno.
Qed.

(** ** The condition mapper *)

Lemma rule_matches_spec (text : str) (phrases : list str) (code : str) :
  existsb (fun phrase => contains phrase text) phrases = true
  <-> rule_matches text (phrases, code).
Proof.
  unfold rule_matches. simpl. rewrite existsb_exists, Exists_exists.
  split; intros (p & Hin & Hp); exists p.
  - split; [by apply list_elem_of_In | by apply contains_spec].
  - split; [by apply list_elem_of_In | by apply contains_spec].
Qed.

(** [first_rule] computes the code that [selects] describes. *)
Lemma first_rule_selects (rules : list (list str * str)) (text code : str) :
  first_rule rules text = code <-> selects rules text code.
Proof.
  revert code. induction rules as [|[phrases c] rules IH]; intros code; simpl.
  - split.
    + intros <-. right. by split.
    + intros [(before & ? & ? & Heq & _) | [-> _]]; [| done].
      by destruct before.
  - destruct (existsb _ phrases) eqn:Hm.
    + apply (rule_matches_spec _ _ c) in Hm. split.
      * intros <-. left. by exists [], phrases, rules.
      * intros [(before & ps & after & Heq & Hyes & Hno) | [_ Hno]].
        -- destruct before as [|r before]; [by injection Heq as _ -> _ |].
           injection Heq as <- _. by inversion Hno.
        -- by inversion Hno.
    + assert (Hno : ~ rule_matches text (phrases, c)).
      { rewrite <- (rule_matches_spec _ _ c), Hm. done. }
      rewrite IH. split.
      * intros [(before & ps & after & -> & Hyes & Hbefore) | [-> Hall]].
        -- left. exists ((phrases, c) :: before), ps, after. by repeat split; [| constructor].
        -- right. by split; [| constructor].
      * intros [(before & ps & after & Heq & Hyes & Hbefore) | [-> Hall]].
        -- destruct before as [|r before].
           ++ injection Heq as -> -> _. done.
           ++ injection Heq as <- ->. left. exists before, ps, after.
              by inversion Hbefore.
        -- right. by inversion Hall.
Qed.

Lemma first_rule_code (rules : list (list str * str)) (text : str) :
  first_rule rules text ∈ map snd rules ++ [u "unknown"].
Proof.
  induction rules as [|[phrases c] rules IH]; simpl.
  - by left.
  - destruct (existsb _ phrases); [by left | by right].
Qed.

Section ConditionProperties.
Context `{Unicode}.

(** The chain of tests of [_map_condition_to_code] is the table of the
    rules read from the top. *)
Lemma map_condition_table (c : char) (s : str) :
  _map_condition_to_code (Some (c :: s))
  = Some (first_rule condition_rules (lower (c :: s))).
Proof.
  unfold _map_condition_to_code. cbn [truthy negb].
  generalize (lower (c :: s)). intros text.
  unfold condition_rules. cbn [first_rule existsb].
  repeat match goal with
         | |- (if ?b then _ else _) = _ =>
             match b with
             | ?x || ?y => destruct x; cbn [orb]
             | _ => destruct b; cbn [orb]
             end;
             try reflexivity
         end.
Qed.

(** On Basic Latin and Cyrillic text the mapper does not depend on the
    version of the tables. *)
Lemma map_condition_basic (text : str) :
  forallb is_basic text = true ->
  _map_condition_to_code (Some text) = @_map_condition_to_code basic_unicode (Some text).
Proof.
  intros Hb. unfold _map_condition_to_code.
  destruct text as [|c s]; [done |]. cbn [truthy negb].
  by rewrite (lower_on_basic _ Hb).
Qed.

(** C2, as the code has it.  [None] and the empty text give [None].  Every
    other text gives exactly one of the sixteen codes or [unknown]: the code
    of the first rule, in the order of the table, one of whose phrases is a
    substring of the text in lower case, and [unknown] when no rule has one.
    A text with both "облачно" and "пасмурно" gives the code of the rule
    that stands first. *)
Theorem map_condition_first_rule :
  _map_condition_to_code None = None
  /\ _map_condition_to_code (Some []) = None
  /\ (forall c s code,
        _map_condition_to_code (Some (c :: s)) = Some code
        <-> selects condition_rules (lower (c :: s)) code)
  /\ (forall c s, exists code,
        _map_condition_to_code (Some (c :: s)) = Some code
        /\ code ∈ condition_codes)
  /\ _map_condition_to_code (Some (u "Пасмурно, затем облачно")) = Some (u "cloudy").
Proof.
  split; [done |]. split; [done |]. split; [| split].
  - intros c s code. rewrite map_condition_table, <- first_rule_selects.
    split; [by intros [= <-] | by intros <-].
  - intros c s. eexists. split; [apply map_condition_table |].
    apply first_rule_code.
  - rewrite map_condition_basic; vm_compute; reflexivity.
Qed.

End ConditionProperties.

(** C2, as the specification states it, fails on the empty text: it is present, and
    it is mapped to no code, not to [unknown]. *)
Lemma map_condition_empty_text_absent :
  let t : option str := Some [] in
  t <> None /\ @_map_condition_to_code basic_unicode t = None.
Proof. split; done. Qed.

(** ** Indexing *)



(** ** The extractors *)

Section ExtractorProperties.
Context `{Unicode}.
Context (BeautifulSoup : str -> result str node).

Lemma find_wrap_none (soup : element) :
  find_wrap soup = None <-> no_fact_block soup.
Proof.
  unfold find_wrap, no_fact_block.
  destruct (select_one _ soup) as [w|]; [split; [done | by intros [? _]] |].
  destruct (find (u "div") _ soup) as [w|]; [split; [done | by intros (_ & ? & _)] |].
  destruct (find (u "span") _ soup) as [v|].
  - split.
    + intros Hp. repeat split; try done. by intros ? [= <-].
    + intros (_ & _ & Hp). by apply Hp.
  - split; [| done]. intros _. by repeat split.
Qed.

(** What [parse_weather] does with the document of the parser, and with its
    rejection. *)
Lemma parse_weather_parsed (html : str) (doc : node) :
  BeautifulSoup html = Ok doc ->
  parse_weather BeautifulSoup html = parse_weather_soup doc.
Proof. unfold parse_weather. by intros ->. Qed.

Lemma parse_weather_rejected (html msg : str) :
  BeautifulSoup html = Err msg ->
  parse_weather BeautifulSoup html = Err (ParserRejectedMarkup msg).
Proof. unfold parse_weather. by intros ->. Qed.

Lemma parse_month_parsed (html : str) (doc : node) :
  BeautifulSoup html = Ok doc ->
  parse_month BeautifulSoup html = parse_month_soup doc.
Proof. unfold parse_month. by intros ->. Qed.

Lemma parse_month_rejected (html msg : str) :
  BeautifulSoup html = Err msg ->
  parse_month BeautifulSoup html = Err (ParserRejectedMarkup msg).
Proof. unfold parse_month. by intros ->. Qed.

(** C5, on markup that the parser accepts.  When none of the three ways
    finds the fact block in the document, [parse_weather] raises the error of
    the missing block: it returns no record.  On such markup it raises
    nothing else, and this error in that case only. *)
Theorem parse_weather_block_not_found (html : str) (doc : node) :
  BeautifulSoup html = Ok doc ->
  let soup := Element [] doc in
  let not_found := ValueError (u "Weather block not found in the page") in
  (no_fact_block soup ->
     parse_weather BeautifulSoup html = Err not_found
     /\ forall w, parse_weather BeautifulSoup html <> Ok w)
  /\ (forall e, parse_weather BeautifulSoup html = Err e ->
        e = not_found /\ no_fact_block soup).
Proof.
  intros Hdoc soup not_found. rewrite (parse_weather_parsed html doc Hdoc).
  unfold parse_weather_soup. fold soup.
  destruct (find_wrap soup) as [wrap|] eqn:Hwrap.
  - split; [| done]. intros Hno%find_wrap_none. congruence.
  - split; [done |]. intros e [= <-]. split; [done | by apply find_wrap_none].
Qed.

Lemma is_climate_start_spec (day_block : element) :
  is_climate_start day_block = true <-> in_placeholder_item day_block.
Proof.
  unfold is_climate_start, in_placeholder_item, li_classes, day_li.
  rewrite existsb_exists. split.
  - intros (cls & Hin & Hc). destruct (find_parent _ day_block) as [li|]; [| done].
    exists li, cls. by rewrite list_elem_of_In, <- contains_spec.
  - intros (li & cls & -> & Hin & Hc). exists cls.
    by rewrite <- list_elem_of_In, contains_spec.
Qed.

(** The loop over the day blocks keeps the entries of the blocks that are
    not placeholders, in their order. *)
Lemma month_loop (blocks : list element) (days : list day) :
  fold_left month_step blocks days
  = days ++ map day_entry (List.filter (fun b => negb (is_climate_start b)) blocks).
Proof.
  revert days. induction blocks as [|b blocks IH]; intros days; simpl.
  - by rewrite app_nil_r.
  - rewrite IH. unfold month_step. destruct (is_climate_start b); simpl; [done |].
    by rewrite <- app_assoc.
Qed.

(** C4. A day block whose list item carries a [climateStart] class gives no
    entry: the result of [parse_month] is the list of the entries of the
    other day blocks, in the order of the document.  When that list is empty,
    which it is when a placeholder is the only day block, [parse_month]
    raises the error of the missing entries and returns no list. *)
Theorem parse_month_skips_placeholders (html : str) (doc : node) (article : element) :
  BeautifulSoup html = Ok doc ->
  select_one month_article (Element [] doc) = Some article ->
  let blocks := select month_day article in
  let kept := List.filter (fun b => negb (is_climate_start b)) blocks in
  let no_entries := ValueError (u "No day entries found in month view") in
  (forall b, is_climate_start b = true <-> in_placeholder_item b)
  /\ (forall b, b ∈ kept <-> b ∈ blocks /\ ~ in_placeholder_item b)
  /\ (kept <> [] -> parse_month BeautifulSoup html = Ok (map day_entry kept))
  /\ (kept = [] -> parse_month BeautifulSoup html = Err no_entries)
  /\ (forall b, blocks = [b] -> in_placeholder_item b ->
        parse_month BeautifulSoup html = Err no_entries)
  /\ (forall days, parse_month BeautifulSoup html = Ok days ->
        days <> [] /\ days = map day_entry kept).
Proof.
  intros Hdoc Harticle blocks kept no_entries.
  assert (Hrun : parse_month BeautifulSoup html
                 = match map day_entry kept with
                   | [] => Err no_entries
                   | days => Ok days
                   end).
  { rewrite (parse_month_parsed html doc Hdoc).
    unfold parse_month_soup. fold month_article month_day.
    rewrite Harticle. fold blocks. rewrite month_loop. cbn [app]. fold kept.
    by destruct (map day_entry kept). }
  split; [apply is_climate_start_spec |]. split; [| split; [| split; [| split]]].
  - intros b. unfold kept. rewrite list_elem_of_In, filter_In, <- list_elem_of_In.
    rewrite <- is_climate_start_spec. destruct (is_climate_start b); simpl; intuition congruence.
  - intros Hne. rewrite Hrun. by destruct kept.
  - intros Hnil. by rewrite Hrun, Hnil.
  - intros b Hb Hp. rewrite Hrun. unfold kept. rewrite Hb. simpl.
    apply is_climate_start_spec in Hp. by rewrite Hp.
  - intros days. rewrite Hrun. destruct kept; [done |]. by intros [= <-].
Qed.

End ExtractorProperties.

Section DetailProperties.
Context `{Unicode}.
Context (BeautifulSoup : str -> result str node).




End DetailProperties.

(** ** Floats, keys and the dictionary *)

Lemma str_eqb_eq (a b : str) : str_eqb a b = true <-> a = b.
Proof.
  revert b. induction a as [|x a IH]; intros [|y b]; simpl; try done.
  rewrite andb_true_iff, N.eqb_eq, IH. split; [by intros [-> ->] | by intros [= -> ->]].
Qed.

(** [x == y] on floats: [x] is no NaN, and [y] is [x] or both are zeros. *)
Lemma float_eqb_spec (x y : float) :
  float_eqb x y = true
  <-> isnan x = false
      /\ (x = y \/ exists s1 s2, x = S754_zero s1 /\ y = S754_zero s2).
Proof.
  unfold float_eqb, SFeqb, SFcompare, isnan. split.
  - destruct x as [s1|s1| |s1 m1 e1], y as [s2|s2| |s2 m2 e2]; try discriminate;
      try (destruct s1, s2; discriminate).
    + intros _. split; [done | right; eauto].
    + destruct s1, s2; try discriminate; intros _; split; try done; by left.
    + destruct s1, s2; try discriminate;
        (destruct (Z.compare_spec e1 e2) as [->| |]; try discriminate);
        change (PosDef.Pos.compare_cont Eq m1 m2) with (Pos.compare m1 m2);
        (destruct (Pos.compare_spec m1 m2) as [->| |]; try discriminate);
        intros _; split; try done; by left.
  - intros [Hnan [<- | (s1 & s2 & -> & ->)]]; [| done].
    destruct x as [s|s| |s m e]; try done.
    + by destruct s.
    + change (PosDef.Pos.compare_cont Eq m m) with (Pos.compare m m).
      rewrite Z.compare_refl, Pos.compare_refl. by destruct s.
Qed.

Lemma float_eqb_refl (x : float) : isnan x = false -> float_eqb x x = true.
Proof. intros Hx. apply float_eqb_spec. split; [done | by left]. Qed.

Lemma float_eqb_nan (x y : float) : isnan x = true \/ isnan y = true -> float_eqb x y = false.
Proof.
  intros Hnan. destruct (float_eqb x y) eqn:Heq; [| done].
  apply float_eqb_spec in Heq as [Hx [<- | (s1 & s2 & -> & ->)]];
    destruct Hnan; simpl in *; congruence.
Qed.

Lemma float_eqb_sym (x y : float) : float_eqb x y = float_eqb y x.
Proof.
  assert (Hhalf : forall a b, float_eqb a b = true -> float_eqb b a = true).
  { intros a b [Ha [<- | (s1 & s2 & -> & ->)]]%float_eqb_spec.
    - by apply float_eqb_refl.
    - done. }
  destruct (float_eqb x y) eqn:Hxy; [symmetry; by apply Hhalf |].
  destruct (float_eqb y x) eqn:Hyx; [| done].
  apply Hhalf in Hyx. congruence.
Qed.

Lemma float_eqb_trans (x y z : float) :
  float_eqb x y = true -> float_eqb y z = true -> float_eqb x z = true.
Proof.
  intros [Hx Hxy]%float_eqb_spec [Hy Hyz]%float_eqb_spec. apply float_eqb_spec.
  split; [done |].
  destruct Hxy as [<- | (s1 & s2 & -> & ->)]; [done |].
  destruct Hyz as [<- | (s3 & s4 & _ & ->)]; right; eauto.
Qed.

Lemma key_eqb_spec (k1 k2 : str * float * float) :
  key_eqb k1 k2 = true
  <-> k1.1.1 = k2.1.1 /\ float_eqb k1.1.2 k2.1.2 = true /\ float_eqb k1.2 k2.2 = true.
Proof. unfold key_eqb. rewrite !andb_true_iff, str_eqb_eq. tauto. Qed.

Lemma key_eqb_refl (k : str * float * float) : no_nan k -> key_eqb k k = true.
Proof.
  intros [Hlat Hlon]. apply key_eqb_spec. by rewrite !float_eqb_refl.
Qed.

Lemma key_eqb_no_nan (k1 k2 : str * float * float) :
  key_eqb k1 k2 = true -> no_nan k1 /\ no_nan k2.
Proof.
  intros (_ & Hlat & Hlon)%key_eqb_spec.
  pose proof Hlat as Hlat'. pose proof Hlon as Hlon'.
  rewrite float_eqb_sym in Hlat'. rewrite float_eqb_sym in Hlon'.
  apply float_eqb_spec in Hlat as [? _], Hlon as [? _], Hlat' as [? _], Hlon' as [? _].
  by repeat split.
Qed.

Lemma key_eqb_sym (k1 k2 : str * float * float) : key_eqb k1 k2 = key_eqb k2 k1.
Proof.
  unfold key_eqb. rewrite (float_eqb_sym k1.1.2), (float_eqb_sym k1.2).
  f_equal. f_equal.
  destruct (str_eqb k1.1.1 k2.1.1) eqn:H1, (str_eqb k2.1.1 k1.1.1) eqn:H2; try done.
  - apply str_eqb_eq in H1. symmetry in H1. apply str_eqb_eq in H1. congruence.
  - apply str_eqb_eq in H2. symmetry in H2. apply str_eqb_eq in H2. congruence.
Qed.

Lemma key_eqb_trans (k1 k2 k3 : str * float * float) :
  key_eqb k1 k2 = true -> key_eqb k2 k3 = true -> key_eqb k1 k3 = true.
Proof.
  intros (Hs & Hlat & Hlon)%key_eqb_spec (Hs' & Hlat' & Hlon')%key_eqb_spec.
  apply key_eqb_spec. repeat split.
  - congruence.
  - by eapply float_eqb_trans.
  - by eapply float_eqb_trans.
Qed.

(** A key with a NaN is equal to no key, itself included. *)
Lemma key_eqb_nan (k1 k2 : str * float * float) :
  ~ no_nan k1 -> key_eqb k1 k2 = false.
Proof.
  intros Hnan. destruct (key_eqb k1 k2) eqn:Heq; [| done].
  by apply key_eqb_no_nan in Heq as [? _].
Qed.

Lemma dict_lookup_unfold (d : dict) (k : str * float * float) :
  d !! k = items_get (items d) k.
Proof. reflexivity. Qed.

Lemma dict_insert_unfold (d : dict) (k : str * float * float) (e : entry) :
  <[k := e]> d = Dict (items_set (items d) k e).
Proof. reflexivity. Qed.

(** A look-up after a store, at a key that is equal to the stored one. *)
Lemma dict_lookup_insert_eq (d : dict) (k k' : str * float * float) (e : entry) :
  key_eqb k k' = true -> <[k := e]> d !! k' = Some e.
Proof.
  intros Heq. rewrite dict_insert_unfold, dict_lookup_unfold. simpl.
  induction (items d) as [|[k0 e0] l IH]; simpl.
  - by rewrite Heq.
  - destruct (key_eqb k0 k) eqn:H0; simpl.
    + by rewrite (key_eqb_trans k0 k k').
    + destruct (key_eqb k0 k') eqn:H0'; [| done].
      rewrite key_eqb_sym in Heq.
      by rewrite (key_eqb_trans k0 k' k) in H0.
Qed.

(** A look-up after a store, at a key that is not equal to the stored one. *)
Lemma dict_lookup_insert_ne (d : dict) (k k' : str * float * float) (e : entry) :
  key_eqb k k' = false -> <[k := e]> d !! k' = d !! k'.
Proof.
  intros Hne. rewrite dict_insert_unfold, !dict_lookup_unfold. simpl.
  induction (items d) as [|[k0 e0] l IH]; simpl.
  - by rewrite Hne.
  - destruct (key_eqb k0 k) eqn:H0; simpl.
    + destruct (key_eqb k0 k') eqn:H0'; [| done].
      rewrite key_eqb_sym in H0.
      by rewrite (key_eqb_trans k k0 k') in Hne.
    + by destruct (key_eqb k0 k').
Qed.

(** A second store at the key replaces the entry of the first. *)
Lemma dict_insert_insert (d : dict) (k : str * float * float) (e1 e2 : entry) :
  no_nan k -> <[k := e2]> (<[k := e1]> d) = <[k := e2]> d.
Proof.
  intros Hk%key_eqb_refl. rewrite !dict_insert_unfold. simpl. f_equal.
  induction (items d) as [|[k0 e0] l IH]; simpl.
  - by rewrite Hk.
  - destruct (key_eqb k0 k) eqn:H0; simpl; rewrite H0; [done |]. by rewrite IH.
Qed.

(** A key with a NaN is never found. *)
Lemma dict_lookup_nan (d : dict) (k : str * float * float) : ~ no_nan k -> d !! k = None.
Proof.
  intros Hnan. rewrite dict_lookup_unfold.
  induction (items d) as [|[k0 e0] l IH]; simpl; [done |].
  destruct (key_eqb k0 k) eqn:H0; [| done].
  by apply key_eqb_no_nan in H0 as [_ ?].
Qed.

(** ** The cache *)

Section CacheProperties.
Context `{Unicode}.

Implicit Types (_cache : dict).

(** C3, for a key without a NaN.  A record that was stored is what a
    look-up of its key returns as long as its age is within the fifteen
    minutes of [CACHE_TTL], also when the look-up writes a zero with the
    other sign; after that the look-up returns [None], as it does for a key
    that was never stored.  A second store for the key replaces the entry as
    a whole, and leaves the keys that are not equal to it as they were. *)
Theorem cache_round_trip scope lat lon record stored _cache :
  isnan lat = false -> isnan lon = false ->
  let _cache' := _set_cached scope lat lon record stored _cache in
  CACHE_TTL = (15 * 60 * 1000000)%Z
  /\ (forall now, (now - stored <= CACHE_TTL)%Z ->
        _get_cached scope lat lon now _cache' = Some record)
  /\ (forall now lat' lon',
        float_eqb lat lat' = true -> float_eqb lon lon' = true ->
        (now - stored <= CACHE_TTL)%Z ->
        _get_cached scope lat' lon' now _cache' = Some record)
  /\ (forall now, (now - stored > CACHE_TTL)%Z ->
        _get_cached scope lat lon now _cache' = None)
  /\ (_cache !! (scope, lat, lon) = None ->
        forall now, _get_cached scope lat lon now _cache = None)
  /\ (forall record2 stored2,
        _set_cached scope lat lon record2 stored2 _cache'
        = _set_cached scope lat lon record2 stored2 _cache
        /\ _set_cached scope lat lon record2 stored2 _cache' !! (scope, lat, lon)
           = Some (Entry stored2 record2)
        /\ forall now, (now - stored2 <= CACHE_TTL)%Z ->
             _get_cached scope lat lon now
               (_set_cached scope lat lon record2 stored2 _cache') = Some record2)
  /\ (forall scope2 lat2 lon2 now,
        key_eqb (scope, lat, lon) (scope2, lat2, lon2) = false ->
        _get_cached scope2 lat2 lon2 now _cache'
        = _get_cached scope2 lat2 lon2 now _cache).
Proof.
  intros Hlat Hlon _cache'.
  assert (Hkey : no_nan (scope, lat, lon)) by done.
  assert (Hnear : forall now lat' lon',
             float_eqb lat lat' = true -> float_eqb lon lon' = true ->
             (now - stored <= CACHE_TTL)%Z ->
             _get_cached scope lat' lon' now _cache' = Some record).
  { intros now lat' lon' Hlat' Hlon' Hage. unfold _cache', _get_cached, _set_cached.
    rewrite dict_lookup_insert_eq by (by apply key_eqb_spec). simpl.
    destruct (Z.gtb_spec (now - stored) CACHE_TTL); [lia | done]. }
  split; [done |]. split; [| split; [done |]; split; [| split; [| split]]].
  - intros now Hage. apply Hnear; [by apply float_eqb_refl .. | done].
  - intros now Hage. unfold _cache', _get_cached, _set_cached.
    rewrite dict_lookup_insert_eq by (by apply key_eqb_refl). simpl.
    destruct (Z.gtb_spec (now - stored) CACHE_TTL); [done | lia].
  - intros Hnone now. unfold _get_cached. by rewrite Hnone.
  - intros record2 stored2. unfold _cache', _get_cached, _set_cached.
    rewrite dict_insert_insert by done.
    rewrite !dict_lookup_insert_eq by (by apply key_eqb_refl).
    split; [done |]. split; [done |]. intros now Hage. simpl.
    destruct (Z.gtb_spec (now - stored2) CACHE_TTL); [lia | done].
  - intros scope2 lat2 lon2 now Hne. unfold _cache', _get_cached, _set_cached.
    by rewrite dict_lookup_insert_ne.
Qed.

End CacheProperties.

(** ** The request handlers *)

Section HandlerProperties.
Context `{Unicode}.
Context (float_str : float -> str) (BeautifulSoup : str -> result str node).

Implicit Types (_cache : dict).

(** [if cached:] on the result of a look-up. *)
Lemma get_cached_truthy scope lat lon now _cache :
  truthy_payload (_get_cached scope lat lon now _cache) = true
  <-> exists e, _cache !! (scope, lat, lon) = Some e
                /\ (now - ts e <= CACHE_TTL)%Z /\ payload_truthy (data e) = true.
Proof.
  unfold _get_cached. destruct (_cache !! (scope, lat, lon)) as [e|]; simpl.
  - destruct (Z.gtb_spec (now - ts e) CACHE_TTL); simpl.
    + split; [done |]. intros (e' & [= <-] & ? & _). lia.
    + split.
      * intros Ht. exists e. repeat split; [lia | done].
      * by intros (e' & [= <-] & _ & ?).
  - split; [done |]. by intros (e' & ? & _).
Qed.

(** With a clock that does not run backwards, a look-up that gave nothing
    to serve gives nothing to serve later. *)
Lemma get_cached_later scope lat lon now1 now2 _cache :
  (now1 <= now2)%Z ->
  (_get_cached scope lat lon now1 _cache = None ->
   _get_cached scope lat lon now2 _cache = None)
  /\ (truthy_payload (_get_cached scope lat lon now1 _cache) = false ->
      truthy_payload (_get_cached scope lat lon now2 _cache) = false).
Proof.
  intros Hle. unfold _get_cached.
  destruct (_cache !! (scope, lat, lon)) as [e|]; [| done].
  destruct (Z.gtb_spec (now1 - ts e) CACHE_TTL);
    destruct (Z.gtb_spec (now2 - ts e) CACHE_TTL); try done; lia.
Qed.

(** What a handler does once its first look-up has missed and the request
    has failed: it serves what the second look-up gives, or raises. *)
Lemma handler_after_failure ep lat lon now1 now2 upstream error _cache :
  truthy_payload (_get_cached (scope_of ep) lat lon now1 _cache) = false ->
  fails_with BeautifulSoup ep upstream error ->
  let cached := _get_cached (scope_of ep) lat lon now2 _cache in
  (truthy_payload cached = false ->
     handler float_str BeautifulSoup ep lat lon now1 now2 upstream _cache
     = (Err (HTTP error), _cache))
  /\ (forall d, cached = Some d -> payload_truthy d = true ->
        exists url,
          handler float_str BeautifulSoup ep lat lon now1 now2 upstream _cache
          = (Ok (Envelope lat lon url d true), _cache)).
Proof.
  intros Hmiss Hfail cached. unfold cached. clear cached.
  destruct ep; simpl in *;
    [unfold get_weather_total | unfold get_weather_month]; cbv zeta;
    rewrite Hmiss;
    (destruct Hfail as [(exc & -> & ->) | (text & msg & -> & Hparse & ->)];
     [| rewrite Hparse]);
    (split; [intros -> | intros d Hd Ht; rewrite Hd; simpl; rewrite Ht; eauto]);
    done.
Qed.

(** What a handler does once its first look-up has missed and the parser
    has rejected the page: the exception of the parser leaves it. *)
Lemma handler_after_rejection ep lat lon now1 now2 text msg _cache :
  truthy_payload (_get_cached (scope_of ep) lat lon now1 _cache) = false ->
  BeautifulSoup text = Err msg ->
  handler float_str BeautifulSoup ep lat lon now1 now2 (Response text) _cache
  = (Err (Uncaught (ParserRejectedMarkup msg)), _cache).
Proof.
  intros Hmiss Hrej.
  destruct ep; simpl in *;
    [unfold get_weather_total | unfold get_weather_month]; cbv zeta;
    rewrite Hmiss;
    [rewrite (parse_weather_rejected _ _ _ Hrej)
    | rewrite (parse_month_rejected _ _ _ Hrej)];
    done.
Qed.

(** C1, where the code departs from it.  An entry that is older than
    [CACHE_TTL] at both look-ups of a request is not served when the request
    fails: although the key has an entry, the handler of either endpoint
    raises the 502 error when the page cannot be fetched, and the 500 error
    when extraction fails, and leaves the cache as it was. *)
Theorem stale_entry_not_served ep lat lon now1 now2 upstream error e _cache :
  _cache !! (scope_of ep, lat, lon) = Some e ->
  (now1 - ts e > CACHE_TTL)%Z ->
  (now2 - ts e > CACHE_TTL)%Z ->
  fails_with BeautifulSoup ep upstream error ->
  handler float_str BeautifulSoup ep lat lon now1 now2 upstream _cache
  = (Err (HTTP error), _cache).
Proof.
  intros He Hage1 Hage2 Hfail.
  assert (Hstale : forall now, (now - ts e > CACHE_TTL)%Z ->
             _get_cached (scope_of ep) lat lon now _cache = None).
  { intros now Hage. unfold _get_cached. rewrite He.
    destruct (Z.gtb_spec (now - ts e) CACHE_TTL); [done | lia]. }
  apply handler_after_failure; [| done |]; by rewrite Hstale.
Qed.

(** An answer marked as cached comes from one of the two look-ups. *)
Lemma handler_cached_answer ep lat lon now1 now2 upstream env _cache _cache' :
  handler float_str BeautifulSoup ep lat lon now1 now2 upstream _cache = (Ok env, _cache') ->
  e_cached env = true ->
  _cache' = _cache
  /\ ((_get_cached (scope_of ep) lat lon now1 _cache = Some (e_data env)
       /\ payload_truthy (e_data env) = true)
      \/ (truthy_payload (_get_cached (scope_of ep) lat lon now1 _cache) = false
          /\ _get_cached (scope_of ep) lat lon now2 _cache = Some (e_data env)
          /\ payload_truthy (e_data env) = true)).
Proof.
  destruct ep; simpl;
    [unfold get_weather_total | unfold get_weather_month]; cbv zeta;
    (destruct (_get_cached _ lat lon now1 _cache) as [d1|] eqn:H1; simpl;
     [destruct (payload_truthy d1) eqn:Ht1 |]);
    try (intros [= <- <-] _; split; [done |]; left; by split);
    (destruct upstream as [text|exc];
     [ match goal with
       | |- context [parse_weather ?b ?t] => destruct (parse_weather b t) as [w|[msg|msg]]
       | |- context [parse_month ?b ?t] => destruct (parse_month b t) as [w|[msg|msg]]
       end |]);
    try discriminate;
    try (intros [= <- <-]; simpl; discriminate);
    (destruct (_get_cached _ lat lon now2 _cache) as [d2|] eqn:H2; simpl;
     [destruct (payload_truthy d2) eqn:Ht2 |]);
    try discriminate;
    intros [= <- <-] _; split; try done; right; by repeat split.
Qed.

(** C10, with a clock that does not run backwards between the two
    look-ups of a request.  A first look-up that returns [None] is followed
    by a second look-up that returns [None]; so after a first look-up that
    has missed, the handler of either endpoint raises the 502 error when the
    page cannot be fetched and the 500 error when the extractor raises its
    [ValueError], and leaves the cache as it was.  An answer marked as cached
    carries an entry whose age was within [CACHE_TTL] at the first look-up: an
    expired entry is never served. *)
Theorem miss_then_failure_raises ep lat lon now1 now2 _cache :
  (now1 <= now2)%Z ->
  let key := (scope_of ep, lat, lon) in
  let answer upstream := handler float_str BeautifulSoup ep lat lon now1 now2 upstream _cache in
  (_get_cached (scope_of ep) lat lon now1 _cache = None ->
     _get_cached (scope_of ep) lat lon now2 _cache = None)
  /\ (truthy_payload (_get_cached (scope_of ep) lat lon now1 _cache) = false ->
      (forall exc,
          answer (RequestException exc)
          = (Err (HTTP (Http 502 (u "Failed to fetch source page: " ++ exc))), _cache))
      /\ (forall text msg,
          extraction_fails BeautifulSoup ep text msg ->
          answer (Response text) = (Err (HTTP (Http 500 msg)), _cache)))
  /\ (forall upstream env _cache',
        answer upstream = (Ok env, _cache') -> e_cached env = true ->
        exists e, _cache !! key = Some e /\ e_data env = data e
                  /\ (now1 - ts e <= CACHE_TTL)%Z /\ _cache' = _cache).
Proof.
  intros Hle key answer. unfold answer, key.
  destruct (get_cached_later (scope_of ep) lat lon now1 now2 _cache Hle) as [Hnone Hfalse].
  split; [done |]. split.
  - intros Hmiss. split.
    + intros exc.
      eapply handler_after_failure; [done | | by apply Hfalse].
      left. by exists exc.
    + intros text msg Hparse.
      eapply handler_after_failure; [done | | by apply Hfalse].
      right. by exists text, msg.
  - intros upstream env _cache' Hanswer Hcached.
    destruct (handler_cached_answer _ _ _ _ _ _ _ _ _ Hanswer Hcached)
      as [-> [[H1 Ht] | (Hmiss & H2 & Ht)]].
    + assert (Htruthy : truthy_payload (_get_cached (scope_of ep) lat lon now1 _cache) = true)
        by (by rewrite H1).
      apply get_cached_truthy in Htruthy as (e & He & Hage & _).
      exists e. unfold _get_cached in H1. rewrite He in H1.
      destruct (Z.gtb_spec (now1 - ts e) CACHE_TTL); [done |].
      injection H1 as H1. repeat split; try done; lia.
    + apply Hfalse in Hmiss. rewrite H2 in Hmiss. simpl in Hmiss. congruence.
Qed.

End HandlerProperties.

(** ** Examples *)

(** The end-to-end example of the specification. *)
Example parse_weather_fixture :
  @parse_weather basic_unicode (parser_giving fact_fixture) []
  = Ok {| w_temperature := Some (u "+3°");
          w_condition := Some (u "cloudy-and-clear");
          w_condition_text := Some (u "Облачно с прояснениями");
          w_feels_like := Some (u "+1°");
          w_yesterday_full := None;
          w_yesterday_short := None;
          w_wind := Some (u "СЗ, 3 м/с");
          w_pressure := Some (u "758");
          w_humidity := Some (u "65");
          w_water_temperature := Some (u "18°") |}.
Proof. vm_compute. reflexivity. Qed.

(** A month with a placeholder and a day: the placeholder gives no entry,
    and the day has no fourth parameter. *)
Example parse_month_fixture :
  @parse_month basic_unicode (parser_giving month_fixture) []
  = Ok [ {| d_title := Some (u "2 ноября");
            d_label := Some (u "2");
            d_day_temp := Some (u "+5°");
            d_night_temp := Some (u "+1°");
            d_feels_like := Some (u "+2°");
            d_pressure := Some (u "750");
            d_humidity := Some (u "80");
            d_wind := Some (u "3 м/с, СЗ");
            d_water_temperature := None |} ].
Proof. vm_compute. reflexivity. Qed.

(** The month whose only day block is a placeholder: [parse_month] raises
    the error of the missing entries. *)
Lemma parse_month_skips_placeholders_witness :
  @parse_month basic_unicode (parser_giving placeholder_month_fixture) []
  = Err (ValueError (u "No day entries found in month view")).
Proof.
  destruct (@parse_month_skips_placeholders basic_unicode
              (parser_giving placeholder_month_fixture) [] placeholder_month_fixture
              (Element [placeholder_month_fixture] placeholder_month_article))
    as (_ & _ & _ & _ & Hsingle & _).
  - reflexivity.
  - vm_compute. reflexivity.
  - eapply Hsingle.
    + vm_compute. reflexivity.
    + apply is_climate_start_spec. vm_compute. reflexivity.
Defined.

(** A page without the fact block. *)
Lemma plain_fixture_not_found :
  @parse_weather basic_unicode (parser_giving plain_fixture) []
  = Err (ValueError (u "Weather block not found in the page")).
Proof. vm_compute. reflexivity. Qed.

(** A page without the fact block: [parse_weather] raises the error of the
    missing block. *)
Lemma parse_weather_block_not_found_witness :
  @parse_weather basic_unicode (parser_giving plain_fixture) []
  = Err (ValueError (u "Weather block not found in the page")).
Proof.
  apply (@parse_weather_block_not_found basic_unicode (parser_giving plain_fixture) []
           plain_fixture eq_refl).
  apply find_wrap_none. vm_compute. reflexivity.
Defined.

(** C5, as the specification states it, fails on markup that the parser
    rejects, such as an unknown marked section: there is no document in which
    a fact block could be found, and [parse_weather] raises the exception of
    the parser, which is not the error of the missing block and no
    [ValueError]. *)
Lemma rejected_markup_is_no_block_error :
  let html := u "<![foo[ bar ]]>" in
  let rejected :=
    ParserRejectedMarkup (u "unknown status keyword 'foo' in marked section") in
  (forall doc, parser_rejecting html <> Ok doc)
  /\ @parse_weather basic_unicode parser_rejecting html = Err rejected
  /\ (forall msg, rejected <> ValueError msg).
Proof. by repeat split. Qed.

(** The entry of the examples: stored at the instant 0 under the
    coordinates 55.0 and 37.0. *)
Lemma old_cache_entry :
  old_cache !! (u "current", lat_55, lon_37) = Some (Entry 0 (Current old_record)).
Proof. vm_compute. reflexivity. Qed.

(** C1 at a failing input: an entry that is one microsecond older than
    [CACHE_TTL], a fetch that times out, and a page without the fact block. *)
Lemma stale_entry_not_served_witness :
  let now := (CACHE_TTL + 1)%Z in
  let answer :=
    @get_weather_total basic_unicode fixture_float_str (parser_giving plain_fixture)
      lat_55 lon_37 now now in
  old_cache !! (u "current", lat_55, lon_37) = Some (Entry 0 (Current old_record))
  /\ answer (RequestException (u "timed out")) old_cache
     = (Err (HTTP (Http 502 (u "Failed to fetch source page: timed out"))), old_cache)
  /\ answer (Response []) old_cache
     = (Err (HTTP (Http 500 (u "Weather block not found in the page"))), old_cache).
Proof.
  split; [exact old_cache_entry |]. split.
  - apply (@stale_entry_not_served basic_unicode fixture_float_str
             (parser_giving plain_fixture) WeatherTotal lat_55 lon_37 _ _ _ _ _ _
             old_cache_entry); [simpl; lia | simpl; lia |].
    left. eexists. split; reflexivity.
  - apply (@stale_entry_not_served basic_unicode fixture_float_str
             (parser_giving plain_fixture) WeatherTotal lat_55 lon_37 _ _ _ _ _ _
             old_cache_entry); [simpl; lia | simpl; lia |].
    right. exists [], (u "Weather block not found in the page").
    split; [reflexivity |]. split; [exact plain_fixture_not_found | reflexivity].
Defined.

(** C3, as the specification states it, fails on a key with a NaN: a NaN is
    not equal to itself, so that the record stored under such a key is not
    found by the look-up that follows, within [CACHE_TTL] as after it. *)
Lemma nan_key_is_not_found :
  let stored := _set_cached (u "current") nan lon_37 (Current old_record) 0 ∅ in
  items stored = [ ((u "current", nan, lon_37), Entry 0 (Current old_record)) ]
  /\ _get_cached (u "current") nan lon_37 0 stored = None
  /\ _get_cached (u "current") nan lon_37 CACHE_TTL stored = None.
Proof. vm_compute. by repeat split. Qed.

(** A record stored under 55.0 and -0.0 is found within [CACHE_TTL] under
    55.0 and 0.0. *)
Lemma cache_round_trip_witness :
  _get_cached (u "current") lat_55 (S754_zero false) CACHE_TTL
    (_set_cached (u "current") lat_55 minus_zero (Current old_record) 0 ∅)
  = Some (Current old_record).
Proof.
  apply (cache_round_trip (u "current") lat_55 minus_zero (Current old_record) 0%Z ∅
           eq_refl eq_refl); [reflexivity | reflexivity | simpl; lia].
Defined.

(** C10, as the specification states it, fails when the clock is set back
    between the two look-ups of a request: the first look-up, at
    [CACHE_TTL + 1], finds the entry expired; the fetch fails; the second
    look-up, at [CACHE_TTL], returns the entry, and the handler answers with
    it instead of raising the 502 error. *)
Lemma clock_set_back_serves_entry :
  let answer :=
    @get_weather_total basic_unicode fixture_float_str (parser_giving plain_fixture)
      lat_55 lon_37 (CACHE_TTL + 1) CACHE_TTL (RequestException (u "timed out")) old_cache in
  _get_cached (u "current") lat_55 lon_37 (CACHE_TTL + 1) old_cache = None
  /\ _get_cached (u "current") lat_55 lon_37 CACHE_TTL old_cache
     = Some (Current old_record)
  /\ answer
     = (Ok (Envelope lat_55 lon_37 (u "https://yandex.ru/pogoda/ru?lat=55.0&lon=37.0")
                     (Current old_record) true),
        old_cache).
Proof. vm_compute. by repeat split. Qed.

(** A request whose first look-up misses at [CACHE_TTL + 1] and whose
    second look-up is made four microseconds later. *)
Lemma miss_then_failure_raises_witness :
  @handler basic_unicode fixture_float_str (parser_giving plain_fixture) WeatherTotal
    lat_55 lon_37 (CACHE_TTL + 1) (CACHE_TTL + 5) (Response []) old_cache
  = (Err (HTTP (Http 500 (u "Weather block not found in the page"))), old_cache).
Proof.
  eapply (@miss_then_failure_raises basic_unicode fixture_float_str
            (parser_giving plain_fixture) WeatherTotal).
  - unfold CACHE_TTL. lia.
  - vm_compute. reflexivity.
  - exact plain_fixture_not_found.
Defined.

(* ===================================================================== *)
(** * Part III: further properties of the code                            *)
(* ===================================================================== *)

(** ** The handlers, one request *)

Section AnswerProperties.
Context `{Unicode}.
Context (float_str : float -> str) (BeautifulSoup : str -> result str node).

Implicit Types (_cache : dict).


(** A first look-up that finds a payload that is true: the answer is that
    payload, marked as cached, whatever the request would have given. *)
Lemma handler_hit ep lat lon now1 now2 upstream _cache d :
  _get_cached (scope_of ep) lat lon now1 _cache = Some d ->
  payload_truthy d = true ->
  handler float_str BeautifulSoup ep lat lon now1 now2 upstream _cache
  = (Ok (Envelope lat lon (source_url float_str ep lat lon) d true), _cache).
Proof.
  intros Hget Ht.
  destruct ep; simpl in *;
    [unfold get_weather_total | unfold get_weather_month]; cbv zeta;
    rewrite Hget; simpl; by rewrite Ht.
Qed.

(** A first look-up that misses, followed by a page that is fetched and
    parsed: the payload is stored at the second reading of the clock and
    returned, not marked as cached. *)
Lemma handler_fresh ep lat lon now1 now2 text d _cache :
  truthy_payload (_get_cached (scope_of ep) lat lon now1 _cache) = false ->
  extraction_gives BeautifulSoup ep text d ->
  handler float_str BeautifulSoup ep lat lon now1 now2 (Response text) _cache
  = (Ok (Envelope lat lon (source_url float_str ep lat lon) d false),
     _set_cached (scope_of ep) lat lon d now2 _cache).
Proof.
  intros Hmiss Hgives.
  destruct ep; simpl in *; destruct Hgives as (x & Hparse & ->);
    [unfold get_weather_total | unfold get_weather_month]; cbv zeta;
    by rewrite Hmiss, Hparse.
Qed.

(** A first look-up that misses, followed by a failure, with a second
    look-up that finds a payload that is true. *)
Lemma handler_fallback ep lat lon now1 now2 upstream error d _cache :
  truthy_payload (_get_cached (scope_of ep) lat lon now1 _cache) = false ->
  fails_with BeautifulSoup ep upstream error ->
  _get_cached (scope_of ep) lat lon now2 _cache = Some d ->
  payload_truthy d = true ->
  handler float_str BeautifulSoup ep lat lon now1 now2 upstream _cache
  = (Ok (Envelope lat lon (source_url float_str ep lat lon) d true), _cache).
Proof.
  intros Hmiss Hfail Hget Ht.
  destruct ep; simpl in *;
    [unfold get_weather_total | unfold get_weather_month]; cbv zeta;
    rewrite Hmiss;
    (destruct Hfail as [(exc & -> & ->) | (text & msg & -> & Hparse & ->)];
     [| rewrite Hparse]);
    rewrite Hget; simpl; by rewrite Ht.
Qed.

(** On a document the extractors raise a [ValueError] only. *)
Lemma parse_weather_soup_error (doc : node) (e : exn) :
  parse_weather_soup doc = Err e -> exists msg, e = ValueError msg.
Proof.
  unfold parse_weather_soup. destruct (find_wrap _); [done |].
  intros [= <-]. eauto.
Qed.

Lemma parse_month_soup_error (doc : node) (e : exn) :
  parse_month_soup doc = Err e -> exists msg, e = ValueError msg.
Proof.
  unfold parse_month_soup. destruct (select_one _ _); [| intros [= <-]; eauto].
  destruct (fold_left _ _ _); [intros [= <-]; eauto | done].
Qed.

(** What the outcome of the outbound request is to an endpoint: a failure
    with its error, a page that the parser rejects, or a payload. *)
Lemma upstream_cases ep upstream :
  (exists error, fails_with BeautifulSoup ep upstream error)
  \/ (exists text msg, upstream = Response text /\ parser_rejects BeautifulSoup text msg)
  \/ (exists text d, upstream = Response text /\ extraction_gives BeautifulSoup ep text d).
Proof.
  destruct upstream as [text|exc]; [| left; eexists; left; by exists exc].
  destruct (BeautifulSoup text) as [doc|msg] eqn:Hdoc;
    [| right; left; by exists text, msg].
  destruct ep; simpl.
  - destruct (parse_weather_soup doc) as [w|e] eqn:Hp.
    + right. right. exists text, (Current w). split; [done |]. exists w.
      by rewrite (parse_weather_parsed _ _ _ Hdoc).
    + destruct (parse_weather_soup_error _ _ Hp) as [msg ->].
      left. eexists. right. exists text, msg. simpl.
      by rewrite (parse_weather_parsed _ _ _ Hdoc).
  - destruct (parse_month_soup doc) as [days|e] eqn:Hp.
    + right. right. exists text, (Month days). split; [done |]. exists days.
      by rewrite (parse_month_parsed _ _ _ Hdoc).
    + destruct (parse_month_soup_error _ _ Hp) as [msg ->].
      left. eexists. right. exists text, msg. simpl.
      by rewrite (parse_month_parsed _ _ _ Hdoc).
Qed.

Lemma handler_answered ep lat lon now1 now2 upstream _cache :
  answered float_str BeautifulSoup ep lat lon now1 now2 upstream _cache
    (handler float_str BeautifulSoup ep lat lon now1 now2 upstream _cache).
Proof.
  destruct (truthy_payload (_get_cached (scope_of ep) lat lon now1 _cache)) eqn:H1.
  - destruct (_get_cached (scope_of ep) lat lon now1 _cache) as [d|] eqn:Hd; [| done].
    rewrite (handler_hit _ _ _ _ _ _ _ d) by done. by apply answered_hit.
  - destruct (upstream_cases ep upstream)
      as [[error Hfail] | [(text & msg & -> & Hrej) | (text & d & -> & Hgives)]].
    + destruct (truthy_payload (_get_cached (scope_of ep) lat lon now2 _cache)) eqn:H2.
      * destruct (_get_cached (scope_of ep) lat lon now2 _cache) as [d|] eqn:Hd; [| done].
        rewrite (handler_fallback _ _ _ _ _ _ error d) by done.
        by eapply answered_fallback.
      * pose proof (handler_after_failure float_str BeautifulSoup
                      ep lat lon now1 now2 upstream error _cache H1 Hfail) as Hf.
        cbv zeta in Hf. destruct Hf as [Hf _]. rewrite (Hf H2).
        by apply answered_error.
    + rewrite (handler_after_rejection float_str BeautifulSoup _ _ _ _ _ text msg) by done.
      by eapply answered_rejected.
    + rewrite (handler_fresh _ _ _ _ _ text d) by done. by eapply answered_fresh.
Qed.

Lemma parse_month_nonempty html days :
  parse_month BeautifulSoup html = Ok days -> days <> [].
Proof.
  unfold parse_month, parse_month_soup.
  destruct (BeautifulSoup html) as [doc|msg]; [| done].
  destruct (select_one _ _) as [article|]; [| done].
  destruct (fold_left _ _ _); [done |]. by intros [= <-].
Qed.

Lemma extraction_gives_truthy ep text d :
  extraction_gives BeautifulSoup ep text d ->
  payload_truthy d = true /\ payload_fits (scope_of ep) d.
Proof.
  destruct ep; simpl; intros (x & Hparse & ->); [done |].
  apply parse_month_nonempty in Hparse. by destruct x.
Qed.

(** X1. Whatever the cache, the clock and the outcome of the outbound
    request, a handler returns an envelope, raises an [HTTPException], or
    lets the exception of the parser out.  An envelope echoes the coordinates
    and carries the address of the source page; marked as cached it leaves the
    cache as it was, and not marked it carries what the extractor returned on
    the fetched page, stored under the key of the request at the second
    reading of the clock.  An [HTTPException] leaves the cache as it was; it
    is the 502 error of a failed fetch or the 500 error of an extractor that
    raised its [ValueError], and the key had nothing to serve.  The exception
    that is not caught is the [ParserRejectedMarkup] of a fetched page that the
    parser rejects, after a first look-up that has missed; the cache is left
    as it was. *)
Theorem answer_kinds ep lat lon now1 now2 upstream _cache :
  match handler float_str BeautifulSoup ep lat lon now1 now2 upstream _cache with
  | (Ok env, _cache') =>
      e_lat env = lat /\ e_lon env = lon
      /\ e_source env = source_url float_str ep lat lon
      /\ payload_truthy (e_data env) = true
      /\ (e_cached env = true -> _cache' = _cache)
      /\ (e_cached env = false ->
          (exists text, upstream = Response text
                        /\ extraction_gives BeautifulSoup ep text (e_data env))
          /\ _cache' = _set_cached (scope_of ep) lat lon (e_data env) now2 _cache)
  | (Err (HTTP error), _cache') =>
      _cache' = _cache
      /\ fails_with BeautifulSoup ep upstream error
      /\ (status_code error = 502%Z \/ status_code error = 500%Z)
      /\ truthy_payload (_get_cached (scope_of ep) lat lon now1 _cache) = false
      /\ truthy_payload (_get_cached (scope_of ep) lat lon now2 _cache) = false
  | (Err (Uncaught e), _cache') =>
      _cache' = _cache
      /\ (exists text msg,
            upstream = Response text /\ parser_rejects BeautifulSoup text msg
            /\ e = ParserRejectedMarkup msg)
      /\ truthy_payload (_get_cached (scope_of ep) lat lon now1 _cache) = false
  end.
Proof.
  destruct (handler_answered ep lat lon now1 now2 upstream _cache)
    as [d Hd Ht | error d Hmiss Hfail Hd Ht | error Hmiss Hfail Hmiss2
        | text msg Hmiss -> Hrej | text d Hmiss -> Hgives];
    simpl.
  - by repeat split.
  - by repeat split.
  - repeat split; try done.
    by destruct Hfail as [(exc & _ & ->) | (text & msg & _ & _ & ->)]; [left | right].
  - repeat split; try done. by exists text, msg.
  - destruct (extraction_gives_truthy _ _ _ Hgives) as [Ht _].
    repeat split; try done. by exists text.
Qed.



(** X3. Once a page has been fetched and parsed for a key, a request whose
    coordinates are equal to those of the key and whose first look-up comes
    within [CACHE_TTL] of the store is answered with the same payload, marked
    as cached, whatever the outbound request would give: none is made.  The
    answer echoes the coordinates of the later request, so that a zero of the
    other sign is served the entry under its own address.  After that time a
    failed fetch raises the 502 error.  Under a key with a NaN the stored
    payload is never found again. *)
Theorem fresh_answer_is_served_again ep lat lon now1 now2 text d _cache :
  truthy_payload (_get_cached (scope_of ep) lat lon now1 _cache) = false ->
  extraction_gives BeautifulSoup ep text d ->
  let _cache' := _set_cached (scope_of ep) lat lon d now2 _cache in
  handler float_str BeautifulSoup ep lat lon now1 now2 (Response text) _cache
  = (Ok (Envelope lat lon (source_url float_str ep lat lon) d false), _cache')
  /\ (forall lat' lon' now3 now4 upstream,
        float_eqb lat lat' = true -> float_eqb lon lon' = true ->
        (now3 - now2 <= CACHE_TTL)%Z ->
        handler float_str BeautifulSoup ep lat' lon' now3 now4 upstream _cache'
        = (Ok (Envelope lat' lon' (source_url float_str ep lat' lon') d true), _cache'))
  /\ (forall lat' lon' now3 now4 exc,
        float_eqb lat lat' = true -> float_eqb lon lon' = true ->
        (now3 - now2 > CACHE_TTL)%Z -> (now4 - now2 > CACHE_TTL)%Z ->
        handler float_str BeautifulSoup ep lat' lon' now3 now4 (RequestException exc) _cache'
        = (Err (HTTP (Http 502 (u "Failed to fetch source page: " ++ exc))), _cache'))
  /\ (isnan lat = true \/ isnan lon = true ->
      forall lat' lon' now3,
        _get_cached (scope_of ep) lat' lon' now3 _cache'
        = _get_cached (scope_of ep) lat' lon' now3 _cache).
Proof.
  intros Hmiss Hgives _cache'.
  destruct (extraction_gives_truthy _ _ _ Hgives) as [Ht _].
  assert (Hlookup : forall lat' lon' now,
            float_eqb lat lat' = true -> float_eqb lon lon' = true ->
            _get_cached (scope_of ep) lat' lon' now _cache'
            = if (now - now2 >? CACHE_TTL)%Z then None else Some d).
  { intros lat' lon' now Hlat Hlon. unfold _cache', _get_cached, _set_cached.
    by rewrite dict_lookup_insert_eq by (by apply key_eqb_spec). }
  split; [by apply handler_fresh |]. split; [| split].
  - intros lat' lon' now3 now4 upstream Hlat Hlon Hage. apply handler_hit; [| done].
    rewrite Hlookup by done. destruct (Z.gtb_spec (now3 - now2) CACHE_TTL); [lia | done].
  - intros lat' lon' now3 now4 exc Hlat Hlon Hage3 Hage4.
    pose proof (handler_after_failure float_str BeautifulSoup ep lat' lon' now3 now4
                  (RequestException exc)
                  (Http 502 (u "Failed to fetch source page: " ++ exc)) _cache') as Hf.
    cbv zeta in Hf. apply Hf.
    + rewrite Hlookup by done. destruct (Z.gtb_spec (now3 - now2) CACHE_TTL); [done | lia].
    + left. by exists exc.
    + rewrite Hlookup by done. destruct (Z.gtb_spec (now4 - now2) CACHE_TTL); [done | lia].
  - intros Hnan lat' lon' now3. unfold _cache', _get_cached, _set_cached.
    rewrite dict_lookup_insert_ne; [done |]. apply key_eqb_nan.
    intros [Hlat Hlon]. simpl in *. destruct Hnan; congruence.
Qed.

End AnswerProperties.

(** ** The handlers, a sequence of requests *)

Section TraceProperties.
Context `{Unicode}.
Context (float_str : float -> str) (BeautifulSoup : str -> result str node).

Implicit Types (_cache : dict).




End TraceProperties.

(** ** The helpers on their own results *)

Section HelperResults.
Context `{Unicode}.

Lemma re_temperature_fixed (m : str) :
  temperature_shaped m -> re_temperature m = Some m.
Proof.
  intros Hm.
  destruct (re_temperature_complete m m [] (eq_sym (app_nil_r m)) Hm) as (m0 & Hm0 & Hlen).
  destruct (re_temperature_sound _ _ Hm0) as [_ [post Hpost]].
  assert (post = []) as ->.
  { apply (f_equal length) in Hpost. rewrite length_app in Hpost.
    destruct post; [done | simpl in Hpost; lia]. }
  rewrite app_nil_r in Hpost. by rewrite Hm0, Hpost.
Qed.

Lemma re_digits_fixed (m : str) :
  m <> [] -> all_digits m -> re_digits m = Some m.
Proof.
  intros Hne Hm. unfold re_digits.
  rewrite <- (app_nil_r m) at 1. rewrite digit_run_app by done. by destruct m.
Qed.

(** X5. What the three helpers with a pattern return is well formed and is
    a fixed point of the helper: a temperature is a substring of the text made
    of an optional sign, digits and a degree sign; a pressure or a humidity
    is a run of digits of the text, one digit at least; and the helper
    applied to its own result returns it unchanged. *)
Theorem pattern_helpers_idempotent :
  (forall t m,
      _extract_temperature t = Some m ->
      temperature_shaped m
      /\ (exists text, t = Some text /\ occurs m text)
      /\ _extract_temperature (Some m) = Some m)
  /\ (forall t m,
      _extract_pressure t = Some m ->
      m <> [] /\ all_digits m
      /\ (exists text, t = Some text /\ occurs m text)
      /\ _extract_pressure (Some m) = Some m
      /\ _extract_humidity (Some m) = Some m).
Proof.
  split.
  - intros [text|] m; [| done]. rewrite extract_temperature_search. intros Hm.
    pose proof (re_search_temperature text) as Hs. rewrite Hm in Hs.
    apply first_longest_occurs in Hs as [Hocc Hshaped].
    split; [done |]. split; [by exists text |].
    rewrite extract_temperature_search. apply re_search_here.
    by apply re_temperature_fixed.
  - intros [text|] m; [| done]. rewrite extract_pressure_search. intros Hm.
    pose proof (re_search_digits text) as Hs. rewrite Hm in Hs.
    destruct Hs as (pre & post & -> & Hne & Hall & _).
    split; [done |]. split; [done |]. split; [exists (pre ++ m ++ post); split; [done | by exists pre, post] |].
    change (_extract_humidity ?t) with (_extract_pressure t).
    rewrite extract_pressure_search.
    split; apply re_search_here; by apply re_digits_fixed.
Qed.

(** *** [strip] *)

Lemma lstrip_spec (s : str) :
  exists pre, s = pre ++ lstrip s /\ all_space pre
    /\ match lstrip s with c :: _ => isspace c = false | [] => True end.
Proof.
  induction s as [|c s (pre & Hs & Hpre & Hhead)]; simpl.
  - exists []. repeat split; first [done | constructor].
  - destruct (isspace c) eqn:Hc.
    + exists (c :: pre). repeat split; [simpl; by f_equal | by constructor | done].
    + exists []. repeat split; first [done | constructor].
Qed.

Lemma lstrip_fixed (c : N) (s : str) : isspace c = false -> lstrip (c :: s) = c :: s.
Proof. intros Hc. simpl. by rewrite Hc. Qed.

Lemma strip_spec (text : str) : strip_of text (strip text).
Proof.
  unfold strip.
  destruct (lstrip_spec text) as (pre & Htext & Hpre & Hhead).
  destruct (lstrip_spec (rev (lstrip text))) as (post & Hrev & Hpost & Hlast).
  set (a := lstrip text) in *. set (b := lstrip (rev a)) in *.
  assert (Ha : a = rev b ++ rev post).
  { rewrite <- rev_app_distr, <- Hrev. by rewrite rev_involutive. }
  exists pre, (rev post). split; [by rewrite <- Ha |].
  split; [done |]. split; [by apply Forall_rev |]. split.
  - intros c w' Hw. rewrite Hw in Ha. rewrite Ha in Hhead. done.
  - intros c w' Hw. apply (f_equal (@rev N)) in Hw.
    rewrite rev_involutive, rev_app_distr in Hw. simpl in Hw.
    rewrite Hw in Hlast. done.
Qed.

Lemma strip_all_space (text : str) : all_space text -> strip text = [].
Proof.
  intros Hs. unfold strip. assert (lstrip text = []) as ->; [| done].
  induction Hs as [|c s Hc _ IH]; simpl; [done |]. by rewrite Hc.
Qed.

Lemma strip_fixed (w : str) : trimmed w -> strip w = w.
Proof.
  intros [Hfirst Hlast]. unfold strip.
  destruct w as [|c w]; [done |].
  rewrite (lstrip_fixed c w) by by eapply Hfirst.
  destruct (rev (c :: w)) as [|d r] eqn:Hrev.
  - apply (f_equal (@rev N)) in Hrev. by rewrite rev_involutive in Hrev.
  - rewrite (lstrip_fixed d r).
    + by rewrite <- Hrev, rev_involutive.
    + apply (Hlast d (rev r)). apply (f_equal (@rev N)) in Hrev.
      rewrite rev_involutive in Hrev. by rewrite Hrev.
Qed.

(** X6. On a text that is not empty the wind helper returns the text
    without the white space at its two ends: a result that neither starts nor
    ends with white space.  A text of white space only gives the empty
    string, and not [None]; so the helper applied to its own result returns
    it unchanged unless that result is empty, which it maps to [None]. *)
Theorem extract_wind_strips (c : N) (s : str) :
  exists w,
    _extract_wind (Some (c :: s)) = Some w
    /\ strip_of (c :: s) w
    /\ (all_space (c :: s) -> w = [] /\ _extract_wind (Some w) = None)
    /\ (w <> [] -> _extract_wind (Some w) = Some w).
Proof.
  exists (strip (c :: s)). split; [done |].
  pose proof (strip_spec (c :: s)) as Hspec.
  split; [done |]. split.
  - intros Hs. by rewrite strip_all_space.
  - intros Hne. destruct Hspec as (_ & _ & _ & _ & _ & Htrim).
    destruct (strip (c :: s)) as [|d w] eqn:Hw; [done |].
    unfold _extract_wind. simpl. by rewrite strip_fixed.
Qed.

End HelperResults.

(** ** The order of the rules of the condition mapper *)

Lemma occurs_trans (a b c : str) : occurs a b -> occurs b c -> occurs a c.
Proof.
  intros (p1 & q1 & ->) (p2 & q2 & ->).
  exists (p2 ++ p1), (q1 ++ q2). by rewrite <- !app_assoc.
Qed.

Lemma contains_trans (a b text : str) :
  contains a b = true -> contains b text = true -> contains a text = true.
Proof. rewrite !contains_spec. apply occurs_trans. Qed.

Lemma rain_in_strong_rain : contains (u "дождь") (u "сильный дождь") = true.
Proof. vm_compute. reflexivity. Qed.

Lemma snow_in_strong_snow : contains (u "снег") (u "сильный снег") = true.
Proof. vm_compute. reflexivity. Qed.

Ltac split_rules Hcode :=
  repeat match type of Hcode with
         | _ = (if ?b then _ else _) =>
             match b with
             | ?x || ?y => destruct x; cbn [orb] in Hcode
             | _ => destruct b; cbn [orb] in Hcode
             end
         end.

Ltac differs x y :=
  assert (u x <> u y)
    by (let Heq := fresh in intros Heq; vm_compute in Heq; discriminate Heq).

(** The tests and the codes of the chain, named and forgotten: what is
    left is the order of the tests. *)
Ltac name_tests text :=
  repeat match goal with
         | H : context [contains ?n text] |- _ =>
             let b := fresh "b" in set (b := contains n text) in *; clearbody b
         | |- context [contains ?n text] =>
             let b := fresh "b" in set (b := contains n text) in *; clearbody b
         end.

Ltac name_codes :=
  repeat match goal with
         | H : context [u ?x] |- _ =>
             let k := fresh "k" in set (k := u x) in *; clearbody k
         | |- context [u ?x] =>
             let k := fresh "k" in set (k := u x) in *; clearbody k
         end.

(** How the table resolves the phrases that contain one another. *)
Lemma first_rule_order (text : str) :
  let code := first_rule condition_rules text in
  (contains (u "сильный дождь") text = true -> code <> u "heavy-rain")
  /\ (code = u "heavy-rain" -> contains (u "ливень") text = true)
  /\ (contains (u "сильный снег") text = true -> code <> u "heavy-snow")
  /\ (code = u "heavy-snow" -> contains (u "метель") text = true)
  /\ (contains (u "малооблачно") text = true ->
      code = u "clear" \/ code = u "partly-cloudy")
  /\ (contains (u "облачно с прояснениями") text = true ->
      code = u "clear" \/ code = u "partly-cloudy" \/ code = u "cloudy-and-clear").
Proof.
  intros code.
  pose proof (contains_trans _ _ text rain_in_strong_rain) as Hrain.
  pose proof (contains_trans _ _ text snow_in_strong_snow) as Hsnow.
  assert (Hcode : code = first_rule condition_rules text) by done.
  clearbody code. unfold condition_rules in Hcode. cbn [first_rule existsb] in Hcode.
  differs "clear"%string "heavy-rain"%string.
  differs "partly-cloudy"%string "heavy-rain"%string.
  differs "cloudy-and-clear"%string "heavy-rain"%string.
  differs "cloudy"%string "heavy-rain"%string.
  differs "overcast"%string "heavy-rain"%string.
  differs "light-rain"%string "heavy-rain"%string.
  differs "rain"%string "heavy-rain"%string.
  differs "thunderstorm"%string "heavy-rain"%string.
  differs "light-snow"%string "heavy-rain"%string.
  differs "snow"%string "heavy-rain"%string.
  differs "heavy-snow"%string "heavy-rain"%string.
  differs "fog"%string "heavy-rain"%string.
  differs "haze"%string "heavy-rain"%string.
  differs "drizzle"%string "heavy-rain"%string.
  differs "hail"%string "heavy-rain"%string.
  differs "unknown"%string "heavy-rain"%string.
  differs "clear"%string "heavy-snow"%string.
  differs "partly-cloudy"%string "heavy-snow"%string.
  differs "cloudy-and-clear"%string "heavy-snow"%string.
  differs "cloudy"%string "heavy-snow"%string.
  differs "overcast"%string "heavy-snow"%string.
  differs "light-rain"%string "heavy-snow"%string.
  differs "rain"%string "heavy-snow"%string.
  differs "heavy-rain"%string "heavy-snow"%string.
  differs "thunderstorm"%string "heavy-snow"%string.
  differs "light-snow"%string "heavy-snow"%string.
  differs "snow"%string "heavy-snow"%string.
  differs "fog"%string "heavy-snow"%string.
  differs "haze"%string "heavy-snow"%string.
  differs "drizzle"%string "heavy-snow"%string.
  differs "hail"%string "heavy-snow"%string.
  differs "unknown"%string "heavy-snow"%string.
  name_tests text. name_codes.
  split_rules Hcode; subst code;
    (split; [| split; [| split; [| split; [| split]]]]); unfold not in *; intros;
    first [ congruence | by left | by right | by (right; left) | by (right; right)
          | specialize (Hrain eq_refl); congruence
          | specialize (Hsnow eq_refl); congruence
          | match goal with
            | Hyes : ?b = true, Hthen : ?b = true -> _ |- _ =>
                specialize (Hthen Hyes); congruence
            end ].
Qed.

Section RuleOrder.
Context `{Unicode}.

(** X7. How the mapper resolves phrases that contain one another.  A text
    with "сильный дождь" in it has "дождь" in it, which is tested first: it is
    never mapped to [heavy-rain], which only "ливень" gives; in the same way a
    text with "сильный снег" is never mapped to [heavy-snow], which only
    "метель" gives.  A text with "малооблачно" is mapped to [clear] or
    [partly-cloudy] and a text with "облачно с прояснениями" to [clear],
    [partly-cloudy] or [cloudy-and-clear], never to [cloudy]. *)
Theorem overlapping_phrases_resolved (c : N) (s : str) :
  let text := lower (c :: s) in
  let code := _map_condition_to_code (Some (c :: s)) in
  (occurs (u "сильный дождь") text -> code <> Some (u "heavy-rain"))
  /\ (code = Some (u "heavy-rain") -> occurs (u "ливень") text)
  /\ (occurs (u "сильный снег") text -> code <> Some (u "heavy-snow"))
  /\ (code = Some (u "heavy-snow") -> occurs (u "метель") text)
  /\ (occurs (u "малооблачно") text ->
      code = Some (u "clear") \/ code = Some (u "partly-cloudy"))
  /\ (occurs (u "облачно с прояснениями") text ->
      code = Some (u "clear") \/ code = Some (u "partly-cloudy")
      \/ code = Some (u "cloudy-and-clear"))
  /\ _map_condition_to_code (Some (u "Сильный дождь")) = Some (u "rain").
Proof.
  intros text code. unfold code. rewrite map_condition_table. fold text.
  destruct (first_rule_order text) as (H1 & H2 & H3 & H4 & H5 & H6).
  rewrite <- !contains_spec.
  split; [| split; [| split; [| split; [| split; [| split]]]]].
  - intros Ht [= Heq]. by apply H1.
  - intros [= Heq]. by apply H2.
  - intros Ht [= Heq]. by apply H3.
  - intros [= Heq]. by apply H4.
  - intros Ht. destruct (H5 Ht) as [-> | ->]; auto.
  - intros Ht. destruct (H6 Ht) as [-> | [-> | ->]]; auto.
  - rewrite map_condition_basic; vm_compute; reflexivity.
Qed.

End RuleOrder.

(** ** The texts of the document *)

Lemma node_induction (P : node -> Prop) :
  (forall name class_ attrs contents,
      Forall P contents -> P (Tag name class_ attrs contents)) ->
  (forall s, P (NavigableString s)) ->
  (forall s, P (OtherString s)) ->
  forall n, P n.
Proof.
  intros Htag Htext Hother.
  fix IH 1. intros [name class_ attrs contents | s | s]; [| apply Htext | apply Hother].
  apply Htag. induction contents as [|c contents IHc]; constructor; [apply IH | apply IHc].
Qed.

Section TextProperties.
Context `{Unicode}.

Lemma strip_solid (s : str) : strip s = [] \/ solid (strip s).
Proof.
  destruct (strip s) as [|c w] eqn:Hs; [by left |]. right.
  split; [done |]. rewrite <- Hs.
  by destruct (strip_spec s) as (_ & _ & _ & _ & _ & ?).
Qed.

Lemma solid_app (a b : str) : solid a -> solid b -> solid (a ++ b).
Proof.
  intros [Ha [Ha1 _]] [Hb [_ Hb2]]. split; [by destruct a |]. split.
  - intros c w' Hw. destruct a as [|c' a]; [done |].
    injection Hw as <- _. by eapply Ha1.
  - intros c w' Hw.
    destruct (exists_last Hb) as (b' & d & ->).
    rewrite app_assoc in Hw. apply app_inj_tail in Hw as [_ <-]. by eapply Hb2.
Qed.

Lemma solid_app_sep (a sep b : str) : solid a -> solid b -> solid (a ++ sep ++ b).
Proof.
  intros [Ha [Ha1 _]] [Hb [_ Hb2]]. split; [by destruct a |]. split.
  - intros c w' Hw. destruct a as [|c' a]; [done |].
    injection Hw as <- _. by eapply Ha1.
  - intros c w' Hw.
    destruct (exists_last Hb) as (b' & d & ->).
    rewrite !app_assoc in Hw. apply app_inj_tail in Hw as [_ <-]. by eapply Hb2.
Qed.

Lemma all_strings_solid (n : node) : Forall solid (all_strings true n).
Proof.
  induction n as [name class_ attrs contents IH | s | s] using node_induction; simpl.
  - induction IH as [|c contents Hc _ IHcs]; simpl; [constructor |].
    by apply Forall_app.
  - destruct (strip s) as [|c w] eqn:Heq; [constructor |].
    constructor; [| constructor].
    destruct (strip_solid s) as [Hnil | Hs]; [congruence | by rewrite Heq in Hs].
  - constructor.
Qed.

Lemma join_solid (sep : str) (parts : list str) :
  Forall solid parts -> parts <> [] -> solid (join sep parts).
Proof.
  intros Hparts. induction Hparts as [|p parts Hp Hparts IH]; [done |]. intros _.
  destruct parts as [|q parts]; [done |].
  change (join sep (p :: q :: parts)) with (p ++ sep ++ join sep (q :: parts)).
  apply solid_app_sep; [done | by apply IH].
Qed.

(** [get_text(sep, strip=True)] is empty, or neither starts nor ends with
    white space. *)
Lemma get_text_solid (sep : str) (e : element) :
  get_text sep true e = [] \/ solid (get_text sep true e).
Proof.
  unfold get_text. destruct (all_strings true (here e)) as [|p parts] eqn:Hs; [by left |].
  right. apply join_solid; [| done]. rewrite <- Hs. apply all_strings_solid.
Qed.

Lemma extract_wind_solid (t : option str) (w : str) :
  (forall g, t = Some g -> g = [] \/ solid g) ->
  _extract_wind t = Some w -> solid w /\ t = Some w.
Proof.
  intros Ht. destruct t as [[|c g]|]; [done | | done].
  destruct (Ht (c :: g) eq_refl) as [? | Hsolid]; [done |].
  unfold _extract_wind. simpl. rewrite strip_fixed by apply Hsolid.
  by intros [= <-].
Qed.

Lemma extract_temperature_shaped (t : option str) (m : str) :
  _extract_temperature t = Some m -> temperature_shaped m.
Proof.
  destruct t as [text|]; [| done]. rewrite extract_temperature_search. intros Hm.
  pose proof (re_search_temperature text) as Hs. rewrite Hm in Hs.
  by apply first_longest_occurs in Hs as [_ ?].
Qed.

Lemma extract_pressure_digits (t : option str) (m : str) :
  _extract_pressure t = Some m -> m <> [] /\ all_digits m.
Proof.
  destruct t as [text|]; [| done]. rewrite extract_pressure_search. intros Hm.
  pose proof (re_search_digits text) as Hs. rewrite Hm in Hs.
  by destruct Hs as (pre & post & _ & ? & ? & _).
Qed.

End TextProperties.

(** ** The records of the extractors *)

Section RecordProperties.
Context `{Unicode}.
Context (BeautifulSoup : str -> result str node).

Lemma map_condition_none (t : option str) :
  _map_condition_to_code t = None <-> t = None \/ t = Some [].
Proof.
  destruct t as [[|c s]|].
  - split; [auto | done].
  - rewrite map_condition_table. split; [done | by intros [? | ?]].
  - split; [auto | done].
Qed.

Lemma stripped_text_solid (e : option element) (t : str) :
  stripped_text e = Some t -> t = [] \/ solid t.
Proof. destruct e as [e|]; [| done]. intros [= <-]. apply strip_solid. Qed.

Lemma detail_at_solid (items : list element) (i : Z) (t : str) :
  detail_at items i = Some t -> t = [] \/ solid t.
Proof.
  unfold detail_at. destruct (py_index items i); [| done].
  intros [= <-]. apply get_text_solid.
Qed.

Lemma param_at_solid (items : list element) (i : Z) (t : str) :
  param_at items i = Some t -> t = [] \/ solid t.
Proof.
  unfold param_at. destruct (py_index items i); [| done].
  intros [= <-]. apply get_text_solid.
Qed.

Lemma strip_or_none_solid (x t : str) :
  py_or (Some (strip x)) None = Some t -> solid t.
Proof.
  unfold py_or. destruct (strip_solid x) as [-> | Hsolid]; [done |].
  destruct (strip x) as [|c w]; [done |]. by intros [= <-].
Qed.

(** X8. The fields of a record that [parse_weather] returns.  The
    temperature and the wind, when present, are not empty and have no white
    space at their ends; the condition text and the water temperature have no
    white space at their ends either, but may be the empty string.  The code
    of the condition is the code of the condition text, absent exactly when
    that text is absent or empty.  The three temperatures taken from phrases
    have the shape of a temperature, and the pressure and the humidity are
    runs of digits. *)
Theorem parse_weather_record_invariants html w :
  parse_weather BeautifulSoup html = Ok w ->
  (forall t, w_temperature w = Some t -> solid t)
  /\ w_condition w = _map_condition_to_code (w_condition_text w)
  /\ (w_condition w = None <-> w_condition_text w = None \/ w_condition_text w = Some [])
  /\ (forall t, w_condition_text w = Some t -> t = [] \/ solid t)
  /\ (forall m, w_feels_like w = Some m \/ w_yesterday_full w = Some m
                \/ w_yesterday_short w = Some m -> temperature_shaped m)
  /\ (forall m, w_pressure w = Some m \/ w_humidity w = Some m ->
                m <> [] /\ all_digits m)
  /\ (forall t, w_wind w = Some t -> solid t)
  /\ (forall t, w_water_temperature w = Some t -> t = [] \/ solid t).
Proof.
  unfold parse_weather, parse_weather_soup.
  destruct (BeautifulSoup html) as [doc|msg]; [| done].
  destruct (find_wrap _) as [wrap|]; [| done]. intros [= <-].
  cbn [w_temperature w_condition w_condition_text w_feels_like w_yesterday_full
       w_yesterday_short w_wind w_pressure w_humidity w_water_temperature].
  split; [| split; [| split; [| split; [| split; [| split; [| split]]]]]].
  - intros t. apply strip_or_none_solid.
  - done.
  - apply map_condition_none.
  - apply stripped_text_solid.
  - intros m [Hm | [Hm | Hm]]; by eapply extract_temperature_shaped.
  - intros m [Hm | Hm]; by eapply extract_pressure_digits.
  - intros t Ht. eapply extract_wind_solid; [| done].
    intros g Hg. by eapply detail_at_solid.
  - apply detail_at_solid.
Qed.




End RecordProperties.

Section DayProperties.
Context `{Unicode}.

(** X10. The fields of the entry of a day block.  The label is the text
    of the date link, and the title is the [aria-label] of the link, as it is
    written, when the link has one that is not empty, and the label
    otherwise; both are absent when the block has no date link.  A night
    temperature comes with a day temperature.  The feels-like temperature has
    the shape of a temperature, the pressure and the humidity are runs of
    digits, the wind is not empty, and no text other than the title has white
    space at its ends. *)
Theorem day_entry_invariants (day_block : element) :
  let d := day_entry day_block in
  let link := select_one day_link day_block in
  d_label d = get_text (u " ") true <$> link
  /\ (d_title d = None <-> link = None)
  /\ (forall l label,
        link = Some l -> get_attr (u "aria-label") (here l) = Some label ->
        label <> [] -> d_title d = Some label)
  /\ (forall l,
        link = Some l ->
        get_attr (u "aria-label") (here l) = None
        \/ get_attr (u "aria-label") (here l) = Some [] ->
        d_title d = d_label d)
  /\ (d_night_temp d <> None -> d_day_temp d <> None)
  /\ (forall m, d_feels_like d = Some m -> temperature_shaped m)
  /\ (forall m, d_pressure d = Some m \/ d_humidity d = Some m ->
                m <> [] /\ all_digits m)
  /\ (forall t, d_wind d = Some t -> solid t)
  /\ (forall t, d_day_temp d = Some t \/ d_night_temp d = Some t
                \/ d_label d = Some t \/ d_water_temperature d = Some t ->
                t = [] \/ solid t).
Proof.
  intros d link. unfold d, day_entry. fold day_link. fold link.
  cbn [d_title d_label d_day_temp d_night_temp d_feels_like d_pressure d_humidity
       d_wind d_water_temperature].
  split; [| split; [| split; [| split; [| split; [| split; [| split; [| split]]]]]]].
  - done.
  - destruct link as [l|]; simpl; [| done]. unfold py_or.
    by destruct (get_attr (u "aria-label") (here l)) as [[|c a]|].
  - intros l label -> Hl Hne. simpl. rewrite Hl. by destruct label.
  - intros l -> [Hl | Hl]; simpl; by rewrite Hl.
  - by destruct (select _ day_block).
  - intros m. apply extract_temperature_shaped.
  - intros m [Hm | Hm]; by eapply extract_pressure_digits.
  - intros t Ht. eapply extract_wind_solid; [| done].
    intros g Hg. by eapply param_at_solid.
  - intros t [Ht | [Ht | [Ht | Ht]]].
    + destruct (select _ day_block) as [|first ?]; [done |].
      injection Ht as <-. apply strip_solid.
    + destruct (head _) as [span|]; [| done]. injection Ht as <-. apply strip_solid.
    + destruct link as [l|]; [| done]. injection Ht as <-. apply get_text_solid.
    + by eapply param_at_solid.
Qed.

End DayProperties.

(** ** The fact block *)

Lemma head_filter_first {A} (f : A -> bool) (l : list A) (x : A) :
  head (List.filter f l) = Some x ->
  exists before after,
    l = before ++ x :: after /\ f x = true /\ Forall (fun d => f d = false) before.
Proof.
  induction l as [|y l IH]; simpl; [done |].
  destruct (f y) eqn:Hy; simpl.
  - intros [= ->]. exists [], l. by repeat split.
  - intros (before & after & -> & Hx & Hbefore)%IH.
    exists (y :: before), after. repeat split; [done | by constructor].
Qed.

Lemma head_filter_none {A} (f : A -> bool) (l : list A) :
  head (List.filter f l) = None -> Forall (fun d => f d = false) l.
Proof.
  induction l as [|y l IH]; simpl; [constructor |].
  destruct (f y) eqn:Hy; simpl; [done |]. intros ?%IH. by constructor.
Qed.

(** The tests of [select_one] and of [find], in the words of the
    statements. *)
Lemma matches_tag_class (tag cls : string) (d : element) :
  matches_selector (tag_class tag cls) d = true <-> tag_with_class (u tag) (u cls) d.
Proof.
  unfold matches_selector, matches_compound, tag_class, tag_with_class.
  cbn [sel_subject sel_tag sel_class sel_outer rev].
  assert (ancestors_match [] (parents d) = true) as -> by (by destruct (parents d)).
  rewrite andb_true_r, andb_true_iff, existsb_exists.
  split.
  - intros [Htag (c & Hin & ->%str_eqb_eq)]. split; [done | by apply list_elem_of_In].
  - intros [Htag Hin]. split; [done |]. exists (u cls).
    split; [by apply list_elem_of_In | by apply str_eqb_eq].
Qed.

Lemma find_test_spec (name part : str) (d : element) :
  is_tag name (here d) && class_satisfies (contains part) (here d) = true
  <-> tag_with_class_part name part d.
Proof.
  unfold tag_with_class_part, class_satisfies. rewrite andb_true_iff.
  split.
  - intros [Htag Hcls]. split; [done |].
    destruct (get_class (here d)) as [classes|]; [| done].
    exists classes. split; [done |].
    apply orb_true_iff in Hcls as [Hone | Hall].
    + left. apply existsb_exists in Hone as (c & Hin & Hc).
      apply Exists_exists. exists c. split; [by apply list_elem_of_In | by apply contains_spec].
    + right. by apply contains_spec.
  - intros [Htag (classes & -> & Hcls)]. split; [done |].
    apply orb_true_iff. destruct Hcls as [Hone | Hall].
    + left. apply Exists_exists in Hone as (c & Hin & Hc).
      apply existsb_exists. exists c. split; [by apply list_elem_of_In | by apply contains_spec].
    + right. by apply contains_spec.
Qed.

Lemma false_is_not {A} (f : A -> bool) (P : A -> Prop) (l : list A) :
  (forall d, f d = true <-> P d) ->
  Forall (fun d => f d = false) l -> Forall (fun d => ~ P d) l.
Proof.
  intros Hspec Hl. eapply Forall_impl; [exact Hl |].
  intros d Hd HP. apply Hspec in HP. congruence.
Qed.

Lemma select_one_first (tag cls : string) (soup x : element) :
  select_one (tag_class tag cls) soup = Some x ->
  first_below (tag_with_class (u tag) (u cls)) soup x.
Proof.
  intros (before & after & Hl & Hx & Hbefore)%head_filter_first.
  exists before, after. split; [done |]. split; [by apply matches_tag_class |].
  eapply false_is_not; [| done]. intros d. apply matches_tag_class.
Qed.

Lemma select_one_none (tag cls : string) (soup : element) :
  select_one (tag_class tag cls) soup = None ->
  none_below (tag_with_class (u tag) (u cls)) soup.
Proof.
  intros Hnone%head_filter_none.
  eapply false_is_not; [| done]. intros d. apply matches_tag_class.
Qed.

Lemma find_first (name part : str) (soup x : element) :
  find name (contains part) soup = Some x ->
  first_below (tag_with_class_part name part) soup x.
Proof.
  intros (before & after & Hl & Hx & Hbefore)%head_filter_first.
  exists before, after. split; [done |]. split; [by apply find_test_spec |].
  eapply false_is_not; [| exact Hbefore]. intros d. apply find_test_spec.
Qed.

Lemma find_none (name part : str) (soup : element) :
  find name (contains part) soup = None ->
  none_below (tag_with_class_part name part) soup.
Proof.
  intros Hnone%head_filter_none.
  eapply false_is_not; [| exact Hnone]. intros d. apply find_test_spec.
Qed.

Lemma find_parent_nearest (name : str) (x p : element) :
  find_parent name x = Some p -> nearest_parent name x p.
Proof.
  unfold find_parent, nearest_parent.
  induction (parents x) as [|n ps IH]; simpl; [done |].
  destruct (is_tag name n) eqn:Hn.
  - intros [= <-]. exists []. by repeat split.
  - intros (near & -> & Hp & Hnear)%IH. exists (n :: near).
    repeat split; [done | by constructor].
Qed.

(** X11. The block in which [parse_weather] looks for its fields is a
    [div]: the first [div] of the document with the class
    [AppFact_wrap__N4SYB]; or, when no [div] has that class, the first [div]
    with a class attribute in which [AppFact_wrap__] occurs; or, when there is
    no such [div] either, the nearest [div] around the first [span] with a
    class attribute in which [AppFactTemperature_value] occurs. *)
Theorem fact_block_is_a_div (soup wrap : element) :
  find_wrap soup = Some wrap ->
  let exact := tag_with_class (u "div") (u "AppFact_wrap__N4SYB") in
  let stable := tag_with_class_part (u "div") (u "AppFact_wrap__") in
  let value := tag_with_class_part (u "span") (u "AppFactTemperature_value") in
  is_tag (u "div") (here wrap) = true
  /\ (first_below exact soup wrap
      \/ (none_below exact soup /\ first_below stable soup wrap)
      \/ (none_below exact soup /\ none_below stable soup
          /\ exists v, first_below value soup v /\ nearest_parent (u "div") v wrap)).
Proof.
  intros Hwrap exact stable value. unfold find_wrap in Hwrap.
  destruct (select_one _ soup) as [w|] eqn:Hexact.
  - injection Hwrap as ->. apply select_one_first in Hexact.
    split; [| by left]. by destruct Hexact as (_ & _ & _ & [? _] & _).
  - apply select_one_none in Hexact.
    destruct (find (u "div") _ soup) as [w|] eqn:Hpart.
    + injection Hwrap as ->. apply find_first in Hpart.
      split; [| right; left; by split]. by destruct Hpart as (_ & _ & _ & [? _] & _).
    + apply find_none in Hpart.
      destruct (find (u "span") _ soup) as [v|] eqn:Hspan; [| done].
      apply find_first in Hspan. apply find_parent_nearest in Hwrap.
      split; [by destruct Hwrap as (_ & _ & ? & _) |].
      right. right. split; [done |]. split; [done |]. by exists v.
Qed.

(** ** Examples of Part III *)

(** The page of the end-to-end example is fetched at the instant 1 for an
    empty cache under 55.0 and -0.0; a request for 55.0 and 0.0 at
    [CACHE_TTL] whose fetch would fail is answered from the cache, under its
    own address. *)
Lemma fresh_answer_is_served_again_witness :
  let stored := _set_cached (u "current") lat_55 minus_zero (Current fact_record) 1 ∅ in
  @handler basic_unicode fixture_float_str (parser_giving fact_fixture) WeatherTotal
    lat_55 (S754_zero false) CACHE_TTL (CACHE_TTL + 7) (RequestException (u "timed out"))
    stored
  = (Ok (Envelope lat_55 (S754_zero false)
                  (u "https://yandex.ru/pogoda/ru?lat=55.0&lon=0.0")
                  (Current fact_record) true), stored).
Proof.
  intros stored.
  destruct (@fresh_answer_is_served_again basic_unicode fixture_float_str
              (parser_giving fact_fixture) WeatherTotal lat_55 minus_zero 0%Z 1%Z []
              (Current fact_record) ∅) as (_ & Hagain & _).
  - reflexivity.
  - exists fact_record. split; [vm_compute; reflexivity | reflexivity].
  - apply Hagain; [reflexivity | reflexivity | simpl; lia].
Defined.

(** The wind of the end-to-end example. *)
Lemma parse_weather_record_invariants_witness :
  @solid basic_unicode (u "СЗ, 3 м/с").
Proof.
  destruct (@parse_weather_record_invariants basic_unicode
              (parser_giving fact_fixture) [] fact_record)
    as (_ & _ & _ & _ & _ & _ & Hwind & _).
  - vm_compute. reflexivity.
  - by apply Hwind.
Defined.

(** The block of a page whose class has another hash: no [div] has the
    exact class, and the block is the first with the stable part of it. *)
Lemma fact_block_is_a_div_witness :
  is_tag (u "div") rehashed_block = true
  /\ first_below (tag_with_class_part (u "div") (u "AppFact_wrap__"))
       (Element [] rehashed_fixture) (Element [rehashed_fixture] rehashed_block).
Proof.
  destruct (fact_block_is_a_div (Element [] rehashed_fixture)
              (Element [rehashed_fixture] rehashed_block))
    as [Htag [Hexact | [[_ Hstable] | (_ & Hnone & _)]]].
  - vm_compute. reflexivity.
  - exfalso. destruct Hexact as (before & after & Hl & [_ Hcls] & _).
    apply list_elem_of_In in Hcls. vm_compute in Hcls.
    destruct Hcls as [Heq | []]. discriminate Heq.
  - by split.
  - exfalso. apply Forall_forall with (x := Element [rehashed_fixture] rehashed_block) in Hnone.
    + apply Hnone. split; [reflexivity |].
      exists [u "AppFact_wrap__Zq81x"]. split; [reflexivity |].
      left. constructor. exists [], (u "Zq81x"). vm_compute. reflexivity.
    + apply list_elem_of_In. vm_compute. by left.
Defined.
